(** * IMAGE-STYLE-GEN: the generation orchestration pipeline

    A shallow embedding of the orchestration code of the photoshoot
    generator: the prompt builder, the gateway wrappers and the API key
    and client cache of [services/geminiService.ts], the history store of
    [hooks/useHistory], the zip download of [utils.ts], and the handlers of
    the [App] component with the effect that archives a finished batch to
    history.

    Asynchronous handlers are cut at their [await]s: the part that runs
    before the remote call is a function returning the new component state
    and the call it makes (if any), the continuation is a function of the
    outcome of that call.  The remote model is not modelled; its answers
    are inputs.  The polling loop of [generateVideoFromImage] runs on the
    list of the answers to its polls.

    The first part holds the definitions, the second part the
    properties. *)

From Stdlib Require Import String Ascii ZArith List Bool Lia DecimalString Sorted.
From Stdlib Require DecimalNat DecimalFacts.
From stdpp Require Import base list strings.

Local Open Scope Z_scope.
Local Open Scope stdpp_scope.

(** ** JavaScript strings *)

Module Js.

(** The one-character string holding a double quote. *)
Definition dq : string := String (Ascii.ascii_of_nat 34) EmptyString.

(** Truthiness of a string: every string but the empty one. *)
Definition truthy (s : string) : bool :=
  match s with
  | EmptyString => false
  | String _ _ => true
  end.

(** [a || b] on strings. *)
Definition or_else (a b : string) : string := if truthy a then a else b.

(** [s.startsWith(p)]. *)
Fixpoint startsWith (p s : string) : bool :=
  match p, s with
  | EmptyString, _ => true
  | String a p', String b s' => Ascii.eqb a b && startsWith p' s'
  | String _ _, EmptyString => false
  end.

(** [s.includes(p)]. *)
Fixpoint includes (p s : string) : bool :=
  startsWith p s ||
  match s with
  | EmptyString => false
  | String _ s' => includes p s'
  end.

(** Drop the first [n] characters. *)
Fixpoint drop (n : nat) (s : string) : string :=
  match n, s with
  | O, _ => s
  | S n', String _ s' => drop n' s'
  | S _, EmptyString => EmptyString
  end.

(** [s.replace(p, r)] with a string pattern: only the first occurrence
    is replaced. *)
Fixpoint replace (p r s : string) : string :=
  if startsWith p s then r +:+ drop (String.length p) s
  else match s with
       | EmptyString => EmptyString
       | String c s' => String c (replace p r s')
       end.

(** [xs.join(sep)]. *)
Fixpoint join (sep : string) (xs : list string) : string :=
  match xs with
  | [] => EmptyString
  | [x] => x
  | x :: rest => x +:+ sep +:+ join sep rest
  end.

(** Decimal rendering of an integer inside a template literal. *)
Definition of_Z (z : Z) : string := NilZero.string_of_int (Z.to_int z).
Definition of_nat (n : nat) : string := NilZero.string_of_uint (Nat.to_uint n).

(** An optional string inside a template literal. *)
Definition of_opt (o : option string) : string :=
  match o with
  | Some s => s
  | None => "undefined"
  end.

End Js.

(** Truthiness of an optional string field. *)
Definition present (o : option string) : bool :=
  match o with
  | Some s => Js.truthy s
  | None => false
  end.

(** ** types.ts *)

Module ImageFile.
Record t := mk {
  data : string; (* base64 *)
  mimeType : string
}.
End ImageFile.

Module FormState.
Record t := mk {
  productImage : option ImageFile.t;
  modelImage : option ImageFile.t;
  productDescription : string;
  numberOfImages : Z;
  delay : Z;
  style : string;
  aspectRatio : string
}.

(** [{ ...fs, productDescription: d }] *)
Definition with_productDescription (d : string) (fs : t) : t :=
  mk (productImage fs) (modelImage fs) d
     (numberOfImages fs) (delay fs) (style fs) (aspectRatio fs).

(** [{ ...fs, style: s }] *)
Definition with_style (s : string) (fs : t) : t :=
  mk (productImage fs) (modelImage fs) (productDescription fs)
     (numberOfImages fs) (delay fs) s (aspectRatio fs).
End FormState.

(** ** services/geminiService.ts: [constructPrompt] *)

Definition constructPrompt (formState : FormState.t) (pose : string) : string :=
  let productDescription := FormState.productDescription formState in
  let modelImage := FormState.modelImage formState in
  let productImage := FormState.productImage formState in
  let style := FormState.style formState in
  let aspectRatio := FormState.aspectRatio formState in
  let textPrompt := "Create a new hyper-realistic 4K commercial photoshoot image." in
  let textPrompt :=
    if Js.truthy productDescription
    then textPrompt +:+ (" The product is: " +:+ Js.dq +:+ productDescription +:+ Js.dq +:+ ".")
    else textPrompt in
  let textPrompt :=
    match modelImage, productImage with
    | Some _, Some _ =>
        textPrompt +:+ " Featuring the attached model posing with the attached product."
    | Some _, None =>
        textPrompt +:+ " Featuring the attached model in a commercial setting."
    | None, Some _ =>
        textPrompt +:+ " Featuring a fashion model posing with the attached product."
    | None, None =>
        textPrompt +:+ " Featuring a fashion model posing with a generic commercial product."
    end in
  let textPrompt :=
    textPrompt +:+ (" The model's pose is: " +:+ Js.dq +:+ pose +:+ Js.dq +:+ ".") in
  let textPrompt :=
    textPrompt +:+ (" The image must have a " +:+ aspectRatio +:+ " aspect ratio.") in
  if String.eqb style "e-commerce" then
    textPrompt +:+ " The overall style should be photorealistic, clean, and professional. The background must be a completely plain, solid white background (#FFFFFF) suitable for an e-commerce product listing. The lighting should be bright and even, minimizing shadows. High-end commercial photography, sharp focus on the product and model."
  else if String.eqb style "studio-bokeh" then
    textPrompt +:+ " The style is photorealistic. The background should be a clean studio setting with a soft, out-of-focus bokeh effect, creating a sense of depth. The lighting should be professional and flattering."
  else if String.eqb style "cinematic" then
    textPrompt +:+ " The style should be cinematic, with dramatic, high-contrast lighting (chiaroscuro). The background should be dark and moody, suggesting a scene from a film."
  else if String.eqb style "high-fashion" then
    textPrompt +:+ " The style should be high-fashion and avant-garde. The background must be an abstract, geometric pattern with bold colors and shapes."
  else if String.eqb style "lifestyle" then
    textPrompt +:+ " Create a lifestyle scene with the model in a natural, candid pose. The setting should be outdoors with beautiful, warm, natural light (golden hour)."
  else if String.eqb style "vintage" then
    textPrompt +:+ " The style should be vintage, reminiscent of old film photography. Apply a sepia tone, add subtle film grain, and use soft, nostalgic lighting."
  else if String.eqb style "minimalist" then
    textPrompt +:+ " The style must be minimalist and clean. The background should be a simple, neutral-colored studio setting with even, soft lighting."
  else if String.eqb style "dramatic" then
    textPrompt +:+ " The style should be dramatic and theatrical. Use a single, hard light source to create deep shadows and a strong focal point. The background should be dark or black."
  else if String.eqb style "monochrome" then
    textPrompt +:+ " The image must be in black and white (monochrome). The background should be a simple studio setting, focusing on texture, form, and light."
  else
    textPrompt +:+ (" The overall style should be " +:+ style +:+ ". The background should be a clean studio setting with professional lighting. High-end commercial photography, sharp focus.").

(** ** The prompt as the specification describes it

  The six pieces of a prompt, each a function of the one input it reads.
  [buildPrompt] is the concatenation in the order the specification
  gives; it is compared with [constructPrompt] below. *)

Module PromptSpec.

Definition preamble : string :=
  "Create a new hyper-realistic 4K commercial photoshoot image.".

Definition descriptionClause (d : string) : string :=
  match d with
  | EmptyString => EmptyString
  | _ => " The product is: " +:+ Js.dq +:+ d +:+ Js.dq +:+ "."
  end.

(** Which reference images are attached. *)
Inductive References := BothImages | ModelOnly | ProductOnly | NoImages.

Definition references (fs : FormState.t) : References :=
  match FormState.modelImage fs, FormState.productImage fs with
  | Some _, Some _ => BothImages
  | Some _, None => ModelOnly
  | None, Some _ => ProductOnly
  | None, None => NoImages
  end.

Definition referenceClause (r : References) : string :=
  match r with
  | BothImages => " Featuring the attached model posing with the attached product."
  | ModelOnly => " Featuring the attached model in a commercial setting."
  | ProductOnly => " Featuring a fashion model posing with the attached product."
  | NoImages => " Featuring a fashion model posing with a generic commercial product."
  end.

Definition poseClause (pose : string) : string :=
  " The model's pose is: " +:+ Js.dq +:+ pose +:+ Js.dq +:+ ".".

Definition ratioClause (ar : string) : string :=
  " The image must have a " +:+ ar +:+ " aspect ratio.".

(** The fixed style enumeration. *)
Inductive Style :=
| ECommerce | StudioBokeh | Cinematic | HighFashion | Lifestyle
| Vintage | Minimalist | Dramatic | Monochrome.

Definition allStyles : list Style :=
  [ECommerce; StudioBokeh; Cinematic; HighFashion; Lifestyle;
   Vintage; Minimalist; Dramatic; Monochrome].

Definition styleName (k : Style) : string :=
  match k with
  | ECommerce => "e-commerce"
  | StudioBokeh => "studio-bokeh"
  | Cinematic => "cinematic"
  | HighFashion => "high-fashion"
  | Lifestyle => "lifestyle"
  | Vintage => "vintage"
  | Minimalist => "minimalist"
  | Dramatic => "dramatic"
  | Monochrome => "monochrome"
  end.

Definition recognize (s : string) : option Style :=
  List.find (fun k => String.eqb s (styleName k)) allStyles.

Definition styleText (k : Style) : string :=
  match k with
  | ECommerce => " The overall style should be photorealistic, clean, and professional. The background must be a completely plain, solid white background (#FFFFFF) suitable for an e-commerce product listing. The lighting should be bright and even, minimizing shadows. High-end commercial photography, sharp focus on the product and model."
  | StudioBokeh => " The style is photorealistic. The background should be a clean studio setting with a soft, out-of-focus bokeh effect, creating a sense of depth. The lighting should be professional and flattering."
  | Cinematic => " The style should be cinematic, with dramatic, high-contrast lighting (chiaroscuro). The background should be dark and moody, suggesting a scene from a film."
  | HighFashion => " The style should be high-fashion and avant-garde. The background must be an abstract, geometric pattern with bold colors and shapes."
  | Lifestyle => " Create a lifestyle scene with the model in a natural, candid pose. The setting should be outdoors with beautiful, warm, natural light (golden hour)."
  | Vintage => " The style should be vintage, reminiscent of old film photography. Apply a sepia tone, add subtle film grain, and use soft, nostalgic lighting."
  | Minimalist => " The style must be minimalist and clean. The background should be a simple, neutral-colored studio setting with even, soft lighting."
  | Dramatic => " The style should be dramatic and theatrical. Use a single, hard light source to create deep shadows and a strong focal point. The background should be dark or black."
  | Monochrome => " The image must be in black and white (monochrome). The background should be a simple studio setting, focusing on texture, form, and light."
  end.

(** The generic clean-studio clause of an unrecognized style. *)
Definition fallbackClause (s : string) : string :=
  " The overall style should be " +:+ s +:+ ". The background should be a clean studio setting with professional lighting. High-end commercial photography, sharp focus.".

Definition styleClause (s : string) : string :=
  match recognize s with
  | Some k => styleText k
  | None => fallbackClause s
  end.

Definition buildPrompt (fs : FormState.t) (pose : string) : string :=
  preamble
    +:+ descriptionClause (FormState.productDescription fs)
    +:+ referenceClause (references fs)
    +:+ poseClause pose
    +:+ ratioClause (FormState.aspectRatio fs)
    +:+ styleClause (FormState.style fs).

End PromptSpec.

(** ** Outcomes of asynchronous calls *)

(** A settled promise: fulfilled with a value, or rejected with an [Error]
    whose [message] is kept. *)
Inductive Result (A : Type) : Type :=
| Ok (a : A)
| Throw (message : string).
Arguments Ok {A} a.
Arguments Throw {A} message.

(** What one use of the remote client comes to: [getAiClient] finds no key
    and throws, the request is rejected, or it resolves to a response.

    The functions of the service are written on this answer.  What they
    are called with (the description, the images, the parts of the request)
    only travels to the remote model; it is kept in the record of the call,
    and nothing done with the answer reads it. *)
Inductive Answer (A : Type) : Type :=
| MissingKey
| Rejected (message : string)
| Resolved (a : A).
Arguments MissingKey {A}.
Arguments Rejected {A} message.
Arguments Resolved {A} a.

(** The message of the error [getAiClient] throws. *)
Definition apiKeyNotFound : string :=
  "API key not found. Please provide your key to use the application.".

(** ** services/geminiService.ts: [generatePoses] *)

(** [JSON.parse(response.text)], as far as [generatePoses] looks at it:
    parsing or reading [poses] throws, there is no array under [poses], or
    there is one. *)
Inductive ParsedJson :=
| ParseError (message : string)
| NoPosesArray
| Poses (poses : list string).

(** [getAiClient] is called before the [try] block, so its error is not
    wrapped; every other failure is. *)
Definition generatePoses (answer : Answer ParsedJson) : Result (list string) :=
  match answer with
  | MissingKey => Throw apiKeyNotFound
  | Rejected m => Throw ("Failed to generate poses: " +:+ m)
  | Resolved (ParseError m) => Throw ("Failed to generate poses: " +:+ m)
  | Resolved NoPosesArray =>
      Throw ("Failed to generate poses: " +:+
             "Could not parse poses from the AI response. Unexpected format.")
  | Resolved (Poses ps) => Ok ps
  end.

(** ** services/geminiService.ts: [generateDescription] *)

Definition generateDescription (answer : Answer string) : Result string :=
  match answer with
  | MissingKey => Throw apiKeyNotFound
  | Rejected m => Throw ("Failed to generate description: " +:+ m)
  | Resolved text => Ok text
  end.

(** ** services/geminiService.ts: [generateImage] *)

Module SafetyRating.
Record t := mk {
  category : string;
  probability : option string
}.
End SafetyRating.

Module Response.
Record Blob := mkBlob {
  data : option string;
  mimeType : option string
}.
Record Part := mkPart {
  inlineData : option Blob;
  text : option string
}.
(** [parts] stands for [content?.parts]. *)
Record Candidate := mkCandidate {
  finishReason : option string;
  safetyRatings : option (list SafetyRating.t);
  parts : option (list Part)
}.
Record PromptFeedback := mkPromptFeedback {
  blockReason : option string;
  feedbackRatings : option (list SafetyRating.t)
}.
Record t := mk {
  promptFeedback : option PromptFeedback;
  candidates : option (list Candidate)
}.
End Response.

Definition problematic (r : SafetyRating.t) : bool :=
  match SafetyRating.probability r with
  | Some p => Js.truthy p && negb (String.eqb p "NEGLIGIBLE") && negb (String.eqb p "LOW")
  | None => false
  end.

Definition formatSafetyRatings (ratings : option (list SafetyRating.t)) : string :=
  match ratings with
  | None | Some [] => EmptyString
  | Some rs =>
      match List.filter problematic rs with
      | [] => EmptyString
      | problematicRatings =>
          "Details: " +:+
          Js.join ", "
            (List.map (fun r =>
                Js.replace "HARM_CATEGORY_" EmptyString (SafetyRating.category r)
                +:+ " (" +:+ Js.of_opt (SafetyRating.probability r) +:+ ")")
              problematicRatings)
      end
  end.

Definition hasInlineData (p : Response.Part) : bool :=
  match Response.inlineData p with
  | Some b => present (Response.data b)
  | None => false
  end.

(** The body of the [try] block once the response has arrived. *)
Definition generateImage_try (response : Response.t) : Result string :=
  let blocked :=
    match Response.promptFeedback response with
    | Some pf => if present (Response.blockReason pf) then Some pf else None
    | None => None
    end in
  match blocked with
  | Some pf =>
      let reason := Js.of_opt (Response.blockReason pf) in
      let safetyDetails := formatSafetyRatings (Response.feedbackRatings pf) in
      Throw ("Request was blocked. Reason: " +:+ reason +:+ ". " +:+ safetyDetails)
  | None =>
      match Response.candidates response with
      | None | Some [] =>
          Throw "Generation failed: No response candidate was returned from the model."
      | Some (candidate :: _) =>
          let reason := Js.of_opt (Response.finishReason candidate) in
          if present (Response.finishReason candidate)
             && negb (String.eqb reason "STOP") && negb (String.eqb reason "MAX_TOKENS")
          then
            let safetyDetails := formatSafetyRatings (Response.safetyRatings candidate) in
            if String.eqb reason "SAFETY" then
              Throw ("Image blocked due to safety filters. " +:+ safetyDetails
                     +:+ " Please adjust your prompt.")
            else if String.eqb reason "IMAGE_SAFETY" then
              Throw ("Image blocked for safety reasons. " +:+ safetyDetails
                     +:+ " Please try a different prompt.")
            else
              Throw ("Generation failed. Reason: " +:+ reason +:+ ". " +:+ safetyDetails)
          else
            let parts := default [] (Response.parts candidate) in
            match List.find hasInlineData parts with
            | Some part =>
                match Response.inlineData part with
                | Some blob =>
                    Ok ("data:" +:+ Js.of_opt (Response.mimeType blob) +:+ ";base64,"
                        +:+ Js.of_opt (Response.data blob))
                | None => Throw "No image was generated in the response."
                end
            | None =>
                match List.find (fun p => present (Response.text p)) parts with
                | Some textPart =>
                    Throw ("Model returned a text response instead of an image: "
                           +:+ Js.dq +:+ Js.of_opt (Response.text textPart) +:+ Js.dq)
                | None => Throw "No image was generated in the response."
                end
            end
      end
  end.

Definition customErrorPrefixes : list string :=
  ["Request was blocked"; "Image blocked"; "Generation failed";
   "Model returned a text response"; "No image was generated"].

Definition isCustomError (message : string) : bool :=
  existsb (fun prefix => Js.startsWith prefix message) customErrorPrefixes.

(** The [catch] block: the module's own errors pass, any other is wrapped. *)
Definition generateImage_catch (message : string) : Result string :=
  if isCustomError message then Throw message
  else Throw ("Failed to generate image: " +:+ message).

(** [getAiClient] is called before the [try] block here too. *)
Definition generateImage (answer : Answer Response.t) : Result string :=
  match answer with
  | MissingKey => Throw apiKeyNotFound
  | Rejected m => generateImage_catch m
  | Resolved response =>
      match generateImage_try response with
      | Ok imageUrl => Ok imageUrl
      | Throw m => generateImage_catch m
      end
  end.

(** ** services/geminiService.ts: the request of one image *)

Inductive RequestPart :=
| InlineData (file : ImageFile.t)
| Text (text : string).

(** The [parts] array [regeneratePhoto] and each round of [generatePhotos]
    build: the product image, the model image, the prompt. *)
Definition imageParts (formState : FormState.t) (pose : string) : list RequestPart :=
  let parts := [] in
  let parts :=
    match FormState.productImage formState with
    | Some productImage => parts ++ [InlineData productImage]
    | None => parts
    end in
  let parts :=
    match FormState.modelImage formState with
    | Some modelImage => parts ++ [InlineData modelImage]
    | None => parts
    end in
  let textPrompt := constructPrompt formState pose in
  parts ++ [Text textPrompt].

(** What the pipeline does to the outside, in the order it does it. *)
Inductive Event :=
| CallGeneratePoses (productDescription : string) (productImage : option ImageFile.t)
    (numberOfPhotos : Z)
| CallGenerateImage (parts : list RequestPart)
| SubmitVideoJob (imageBytes mimeType aspectRatio : string)
| PollVideoJob
| FetchVideo (url : string)
| Sleep (milliseconds : Z).

(** ** services/geminiService.ts: [generatePhotos]

    The loop over [poseTasks], from [index] on; [rest] holds the poses
    from [index] to the end, [total] is [poseTasks.length].  The answer of
    the remote model to the request of round [index] is [answers index].
    The callbacks act on the caller's state. *)

Section GeneratePhotos.
Context {S : Type}.
Variable formState : FormState.t.
Variable onSuccess : nat -> string -> S -> S.
Variable onError : nat -> string -> S -> S.
Variable answers : nat -> Answer Response.t.
Variable total : nat.

Fixpoint generatePhotos_from (index : nat) (rest : list string) (s : S)
  : S * list Event :=
  match rest with
  | [] => (s, [])
  | pose :: rest' =>
      let parts := imageParts formState pose in
      let s :=
        match generateImage (answers index) with
        | Ok imageUrl => onSuccess index imageUrl s
        | Throw message =>
            onError index (Js.or_else message "An unknown error occurred.") s
        end in
      let pause :=
        if (Z.of_nat index <? Z.of_nat total - 1) && (FormState.delay formState >? 0)
        then [Sleep (FormState.delay formState * 1000)]
        else [] in
      let '(s, events) := generatePhotos_from (Datatypes.S index) rest' s in
      (s, CallGenerateImage parts :: pause ++ events)
  end.

End GeneratePhotos.

Definition generatePhotos {S : Type} (formState : FormState.t) (poseTasks : list string)
    (onSuccess : nat -> string -> S -> S) (onError : nat -> string -> S -> S)
    (answers : nat -> Answer Response.t) (s : S) : S * list Event :=
  generatePhotos_from formState onSuccess onError answers (length poseTasks) 0 poseTasks s.

(** ** services/geminiService.ts: [generateVideoFromImage] *)

(** A video operation, as far as the code looks at it: [done], and
    [response?.generatedVideos?.[0]?.video?.uri]. *)
Module Operation.
Record t := mk {
  done : bool;
  uri : option string
}.
End Operation.

(** What fetching the video and reading it as a data URL comes to. *)
Inductive Fetched :=
| FetchRejected (message : string)
| FetchNotOk (statusText : string)
| FetchOk (dataUrl : string).

(** The polling loop.  The answers of the remote service to the polls
    are [polls], in order; when they run out before an operation is done
    the loop is still waiting, which is [None]. *)
Fixpoint pollUntilDone (operation : Operation.t) (polls : list (Result Operation.t))
  : option (Result Operation.t) * list Event :=
  if Operation.done operation then (Some (Ok operation), [])
  else
    match polls with
    | [] => (None, [Sleep 10000])
    | Ok operation' :: polls' =>
        let '(outcome, events) := pollUntilDone operation' polls' in
        (outcome, Sleep 10000 :: PollVideoJob :: events)
    | Throw message :: _ => (Some (Throw message), [Sleep 10000; PollVideoJob])
    end.

(** [apiKey] is what [getApiKey] returns; [matchDataUrl] is
    [base64ImageDataUrl.match(/data:(image\/.+);base64,(.+)/)], the two
    groups of a match.  Nothing is caught here: every error goes to the
    caller as it is. *)
Definition generateVideoFromImage (apiKey : option string)
    (matchDataUrl : string -> option (string * string))
    (base64ImageDataUrl aspectRatio : string)
    (submitted : Result Operation.t) (polls : list (Result Operation.t))
    (fetched : Fetched) : option (Result string) * list Event :=
  if negb (present apiKey) then (Some (Throw apiKeyNotFound), [])
  else
    match matchDataUrl base64ImageDataUrl with
    | None => (Some (Throw "Invalid base64 image data URL"), [])
    | Some (mimeType, base64Data) =>
        let submit := SubmitVideoJob base64Data mimeType aspectRatio in
        match submitted with
        | Throw message => (Some (Throw message), [submit])
        | Ok operation =>
            match pollUntilDone operation polls with
            | (None, events) => (None, submit :: events)
            | (Some (Throw message), events) => (Some (Throw message), submit :: events)
            | (Some (Ok operation), events) =>
                if present (Operation.uri operation) then
                  let downloadLink := Js.of_opt (Operation.uri operation) in
                  let fetch := FetchVideo (downloadLink +:+ "&key=" +:+ Js.of_opt apiKey) in
                  (Some match fetched with
                        | FetchRejected message => Throw message
                        | FetchNotOk statusText =>
                            Throw ("Failed to download video file: " +:+ statusText)
                        | FetchOk dataUrl => Ok dataUrl
                        end,
                   submit :: events ++ [fetch])
                else
                  (Some (Throw "Video generation failed or did not return a valid URI."),
                   submit :: events)
            end
        end
    end.


(** ** types.ts: [ImageResult], [HistoryEntry] *)

Inductive Status := StLoading | StSuccess | StError.
Inductive VideoStatus := VIdle | VLoading | VSuccess | VError.

Definition Status_eqb (a b : Status) : bool :=
  match a, b with
  | StLoading, StLoading | StSuccess, StSuccess | StError, StError => true
  | _, _ => false
  end.

Module ImageResult.
Record t := mk {
  id : string;
  src : string;
  prompt : string;
  style : string;
  aspectRatio : string;
  status : Status;
  error : option string;
  videoSrc : option string;
  videoStatus : option VideoStatus;
  videoError : option string
}.

(** [{ ...img, src: imageUrl, status: 'success' }] *)
Definition succeeded (imageUrl : string) (img : t) : t :=
  mk (id img) imageUrl (prompt img) (style img) (aspectRatio img) StSuccess
     (error img) (videoSrc img) (videoStatus img) (videoError img).

(** [{ ...img, status: 'error', error: message }] *)
Definition failed (message : string) (img : t) : t :=
  mk (id img) (src img) (prompt img) (style img) (aspectRatio img) StError
     (Some message) (videoSrc img) (videoStatus img) (videoError img).

(** [{ ...img, status: 'loading', style: newStyle, prompt: newPrompt,
       videoStatus: 'idle', videoSrc: undefined, videoError: undefined }] *)
Definition restarted (newStyle newPrompt : string) (img : t) : t :=
  mk (id img) (src img) newPrompt newStyle (aspectRatio img) StLoading
     (error img) None (Some VIdle) None.

(** [{ ...img, videoStatus: 'loading', videoError: undefined }] *)
Definition videoStarted (img : t) : t :=
  mk (id img) (src img) (prompt img) (style img) (aspectRatio img) (status img)
     (error img) (videoSrc img) (Some VLoading) None.

(** [{ ...img, videoStatus: 'success', videoSrc: videoSrc }] *)
Definition videoSucceeded (video : string) (img : t) : t :=
  mk (id img) (src img) (prompt img) (style img) (aspectRatio img) (status img)
     (error img) (Some video) (Some VSuccess) (videoError img).

(** [{ ...img, videoStatus: 'error', videoError: message }] *)
Definition videoFailed (message : string) (img : t) : t :=
  mk (id img) (src img) (prompt img) (style img) (aspectRatio img) (status img)
     (error img) (videoSrc img) (Some VError) (Some message).
End ImageResult.

Module HistoryEntry.
Record t := mk {
  id : Z; (* the timestamp *)
  date : string; (* ISO string *)
  formState : FormState.t;
  images : list ImageResult.t
}.
End HistoryEntry.

(** [Date.now()] and [new Date().toISOString()] at one instant. *)
Record Clock := mkClock {
  nowMs : Z;
  nowISO : string
}.

(** ** hooks/useHistory *)

(** [newHistory.sort((a, b) => b.id - a.id)]: a stable sort, newest
    first.  The array is sorted in place, so the sorted list is the new
    history whether or not writing it to local storage succeeds. *)
Fixpoint insertByRecency (e : HistoryEntry.t) (l : list HistoryEntry.t)
  : list HistoryEntry.t :=
  match l with
  | [] => [e]
  | x :: l' =>
      if HistoryEntry.id e <? HistoryEntry.id x
      then x :: insertByRecency e l'
      else e :: l
  end.

Definition saveHistory (newHistory : list HistoryEntry.t) : list HistoryEntry.t :=
  foldr insertByRecency [] newHistory.

Definition addToHistory (clock : Clock) (formState : FormState.t)
    (images : list ImageResult.t) (prevHistory : list HistoryEntry.t)
  : list HistoryEntry.t :=
  let newEntry := HistoryEntry.mk (nowMs clock) (nowISO clock) formState images in
  let updatedHistory := newEntry :: prevHistory in
  saveHistory updatedHistory.

(** [removeFromHistory], once the user has confirmed. *)
Definition removeFromHistory (id : Z) (prevHistory : list HistoryEntry.t)
  : list HistoryEntry.t :=
  let updatedHistory :=
    List.filter (fun entry => negb (HistoryEntry.id entry =? id)) prevHistory in
  saveHistory updatedHistory.

(** [clearHistory], once the user has confirmed. *)
Definition clearHistory (prevHistory : list HistoryEntry.t) : list HistoryEntry.t := [].

(** ** The [App] component *)

Module ViewingVideoState.
Record t := mk {
  videoSrc : string;
  imageSrc : string
}.
End ViewingVideoState.

Module App.

(** The state of the component: its [useState] cells, in the order they
    are declared, the [prevIsLoading] ref and the history of
    [useHistory]. *)
Record State := mk {
  formState : FormState.t;
  images : list ImageResult.t;
  isLoading : bool;
  isDescriptionLoading : bool;
  error : option string;
  lastUsedFormState : option FormState.t;
  viewingVideo : option ViewingVideoState.t;
  viewingImageId : option string;
  isApiKeyModalOpen : bool;
  prevIsLoading : bool;
  history : list HistoryEntry.t
}.

Definition setFormState (v : FormState.t) (st : State) : State :=
  mk v (images st) (isLoading st) (isDescriptionLoading st) (error st)
     (lastUsedFormState st) (viewingVideo st) (viewingImageId st)
     (isApiKeyModalOpen st) (prevIsLoading st) (history st).

Definition setImages (f : list ImageResult.t -> list ImageResult.t) (st : State) : State :=
  mk (formState st) (f (images st)) (isLoading st) (isDescriptionLoading st)
     (error st) (lastUsedFormState st) (viewingVideo st) (viewingImageId st)
     (isApiKeyModalOpen st) (prevIsLoading st) (history st).

Definition setIsLoading (v : bool) (st : State) : State :=
  mk (formState st) (images st) v (isDescriptionLoading st) (error st)
     (lastUsedFormState st) (viewingVideo st) (viewingImageId st)
     (isApiKeyModalOpen st) (prevIsLoading st) (history st).

Definition setIsDescriptionLoading (v : bool) (st : State) : State :=
  mk (formState st) (images st) (isLoading st) v (error st) (lastUsedFormState st)
     (viewingVideo st) (viewingImageId st) (isApiKeyModalOpen st) (prevIsLoading st)
     (history st).

Definition setError (v : option string) (st : State) : State :=
  mk (formState st) (images st) (isLoading st) (isDescriptionLoading st) v
     (lastUsedFormState st) (viewingVideo st) (viewingImageId st)
     (isApiKeyModalOpen st) (prevIsLoading st) (history st).

Definition setLastUsedFormState (v : option FormState.t) (st : State) : State :=
  mk (formState st) (images st) (isLoading st) (isDescriptionLoading st) (error st) v
     (viewingVideo st) (viewingImageId st) (isApiKeyModalOpen st) (prevIsLoading st)
     (history st).

Definition setViewingVideo (v : option ViewingVideoState.t) (st : State) : State :=
  mk (formState st) (images st) (isLoading st) (isDescriptionLoading st) (error st)
     (lastUsedFormState st) v (viewingImageId st) (isApiKeyModalOpen st)
     (prevIsLoading st) (history st).

Definition setViewingImageId (v : option string) (st : State) : State :=
  mk (formState st) (images st) (isLoading st) (isDescriptionLoading st) (error st)
     (lastUsedFormState st) (viewingVideo st) v (isApiKeyModalOpen st)
     (prevIsLoading st) (history st).

Definition setIsApiKeyModalOpen (v : bool) (st : State) : State :=
  mk (formState st) (images st) (isLoading st) (isDescriptionLoading st) (error st)
     (lastUsedFormState st) (viewingVideo st) (viewingImageId st) v (prevIsLoading st)
     (history st).

Definition setPrevIsLoading (v : bool) (st : State) : State :=
  mk (formState st) (images st) (isLoading st) (isDescriptionLoading st) (error st)
     (lastUsedFormState st) (viewingVideo st) (viewingImageId st)
     (isApiKeyModalOpen st) v (history st).

Definition setHistory (f : list HistoryEntry.t -> list HistoryEntry.t) (st : State) : State :=
  mk (formState st) (images st) (isLoading st) (isDescriptionLoading st) (error st)
     (lastUsedFormState st) (viewingVideo st) (viewingImageId st)
     (isApiKeyModalOpen st) (prevIsLoading st) (f (history st)).

(** The component once mounted: the default form, nothing generated
    yet, the key dialog open when no API key is found, and the history read
    from local storage. *)
Definition initial (hasApiKey : bool) (storedHistory : list HistoryEntry.t) : State :=
  mk (FormState.mk None None EmptyString 3 1 "e-commerce" "9:16")
     [] false false None None None None (negb hasApiKey) false storedHistory.

(** The effect that saves history: it runs after every render in which
    one of its dependencies changed.  A render in which none changed
    leaves [prevIsLoading.current] equal to [isLoading], where the effect
    would do nothing, so it is run after every render here. *)
Definition historyEffect (clock : Clock) (st : State) : State :=
  let st' :=
    if prevIsLoading st && negb (isLoading st) then
      match lastUsedFormState st with
      | Some lastUsed => setHistory (addToHistory clock lastUsed (images st)) st
      | None => st
      end
    else st in
  setPrevIsLoading (isLoading st) st'.

(** [if (err.message.includes('API key not found')) setIsApiKeyModalOpen(true)] *)
Definition promptForKey (message : string) (st : State) : State :=
  if Js.includes "API key not found" message then setIsApiKeyModalOpen true st else st.

(** [prev.map(img => img.id === imageId ? f(img) : img)] *)
Definition updateById (imageId : string) (f : ImageResult.t -> ImageResult.t)
    (prev : list ImageResult.t) : list ImageResult.t :=
  List.map (fun img => if String.eqb (ImageResult.id img) imageId then f img else img) prev.

(** [prevImages.map((img, i) => i === index ? f(img) : img)] *)
Definition updateAt (index : nat) (f : ImageResult.t -> ImageResult.t)
    (prevImages : list ImageResult.t) : list ImageResult.t :=
  imap (fun i img => if Nat.eqb i index then f img else img) prevImages.

(** [images.find(img => img.id === imageId)] *)
Definition findById (imageId : string) (images : list ImageResult.t)
  : option ImageResult.t :=
  List.find (fun img => String.eqb (ImageResult.id img) imageId) images.

(** *** [handleGenerate] *)

(** Up to the call of [generatePoses]. *)
Definition handleGenerate_begin (st : State) : State :=
  let st := setIsLoading true st in
  let st := setError None st in
  let st := setImages (fun _ => []) st in
  setLastUsedFormState (Some (formState st)) st.

(** The items created once the poses are known; [now i] is what
    [Date.now()] returns when the item of index [i] is built. *)
Definition initialImages (now : nat -> Z) (formState : FormState.t)
    (poseTasks : list string) : list ImageResult.t :=
  imap (fun index pose =>
          ImageResult.mk (Js.of_Z (now index) +:+ "-" +:+ Js.of_nat index)
            EmptyString pose (FormState.style formState)
            (FormState.aspectRatio formState) StLoading None None (Some VIdle) None)
       poseTasks.

Definition onSuccess (index : nat) (imageUrl : string) (st : State) : State :=
  setImages (updateAt index (ImageResult.succeeded imageUrl)) st.

Definition onError (index : nat) (errorMessage : string) (st : State) : State :=
  setImages (updateAt index (ImageResult.failed errorMessage)) st.

(** The two callbacks, each followed by the render it causes. *)
Definition onSuccessRendered (clock : Clock) (index : nat) (imageUrl : string)
    (st : State) : State :=
  historyEffect clock (onSuccess index imageUrl st).

Definition onErrorRendered (clock : Clock) (index : nat) (errorMessage : string)
    (st : State) : State :=
  historyEffect clock (onError index errorMessage st).

(** The [catch] block. *)
Definition handleGenerate_catch (message : string) (st : State) : State :=
  let st := promptForKey message st in
  let st := setError (Some ("An unexpected error occurred: " +:+ message)) st in
  setImages (fun prevImages =>
               match prevImages with
               | [] => []
               | _ => List.map (ImageResult.failed "Generation failed") prevImages
               end) st.

(** The [finally] block. *)
Definition handleGenerate_finally (st : State) : State := setIsLoading false st.

(** One whole run of the handler, with no other handler in between.  The
    component renders (and the history effect runs) after the first part,
    after each change of [images], and at the end; [clock] is the time of
    these renders. *)
Definition handleGenerate (clock : Clock) (now : nat -> Z)
    (planning : Answer ParsedJson) (answers : nat -> Answer Response.t)
    (st : State) : State * list Event :=
  let formState := formState st in
  let st := historyEffect clock (handleGenerate_begin st) in
  let call :=
    CallGeneratePoses (FormState.productDescription formState)
      (FormState.productImage formState) (FormState.numberOfImages formState) in
  let '(st, events) :=
    match generatePoses planning with
    | Ok [] =>
        (handleGenerate_catch
           "The AI failed to generate any poses. Try adjusting the description." st, [])
    | Ok poseTasks =>
        let st := historyEffect clock
                    (setImages (fun _ => initialImages now formState poseTasks) st) in
        generatePhotos formState poseTasks
          (onSuccessRendered clock) (onErrorRendered clock) answers st
    | Throw message => (handleGenerate_catch message st, [])
    end in
  (historyEffect clock (handleGenerate_finally st), call :: events).

(** *** [handleRegenerate] *)

(** Up to the call of [regeneratePhoto]; the second component is the
    call, when one is made: the parts handed to [generateImage]. *)
Definition handleRegenerate_begin (imageId newStyle newPrompt : string) (st : State)
  : State * option (list RequestPart) :=
  match lastUsedFormState st with
  | None =>
      (setError (Some "Cannot regenerate. Original form data not found.") st, None)
  | Some lastUsed =>
      match findById imageId (images st) with
      | None => (st, None)
      | Some imageToUpdate =>
          if String.eqb newStyle (ImageResult.style imageToUpdate)
             && String.eqb newPrompt (ImageResult.prompt imageToUpdate)
          then (st, None)
          else
            let st := setImages (updateById imageId
                                   (ImageResult.restarted newStyle newPrompt)) st in
            let newFormState := FormState.with_style newStyle lastUsed in
            (st, Some (imageParts newFormState newPrompt))
      end
  end.

(** After [regeneratePhoto] has settled. *)
Definition handleRegenerate_settled (imageId : string) (outcome : Result string)
    (st : State) : State :=
  match outcome with
  | Ok imageUrl => setImages (updateById imageId (ImageResult.succeeded imageUrl)) st
  | Throw message =>
      let st := promptForKey message st in
      let st := setError (Some ("Failed to regenerate image: " +:+ message)) st in
      setImages (updateById imageId (ImageResult.failed message)) st
  end.

(** *** [handleVideoAction] *)

(** The call of [generateVideoFromImage], with the photo captured when
    the handler started. *)
Record VideoCall := mkVideoCall {
  base64ImageDataUrl : string;
  videoAspectRatio : string
}.

Definition VideoStatus_is (v : VideoStatus) (o : option VideoStatus) : bool :=
  match o, v with
  | Some VIdle, VIdle | Some VLoading, VLoading
  | Some VSuccess, VSuccess | Some VError, VError => true
  | _, _ => false
  end.

(** Up to the call of [generateVideoFromImage]. *)
Definition handleVideoAction_begin (imageId aspectRatio : string) (st : State)
  : State * option VideoCall :=
  match findById imageId (images st) with
  | None => (st, None)
  | Some imageToUpdate =>
      if negb (Status_eqb (ImageResult.status imageToUpdate) StSuccess) then (st, None)
      else if VideoStatus_is VSuccess (ImageResult.videoStatus imageToUpdate)
              && present (ImageResult.videoSrc imageToUpdate)
      then
        (setViewingVideo
           (Some (ViewingVideoState.mk (Js.of_opt (ImageResult.videoSrc imageToUpdate))
                    (ImageResult.src imageToUpdate))) st,
         None)
      else if VideoStatus_is VLoading (ImageResult.videoStatus imageToUpdate)
      then (st, None)
      else
        let st := setImages (updateById imageId ImageResult.videoStarted) st in
        let st := setError None st in
        (st, Some (mkVideoCall (ImageResult.src imageToUpdate) aspectRatio))
  end.

(** After [generateVideoFromImage] has settled. *)
Definition handleVideoAction_settled (imageId : string) (call : VideoCall)
    (outcome : Result string) (st : State) : State :=
  match outcome with
  | Ok videoSrc =>
      let st := setImages (updateById imageId (ImageResult.videoSucceeded videoSrc)) st in
      setViewingVideo
        (Some (ViewingVideoState.mk videoSrc (base64ImageDataUrl call))) st
  | Throw message =>
      let st := promptForKey message st in
      let st := setError (Some ("Failed to generate video: " +:+ message)) st in
      setImages (updateById imageId (ImageResult.videoFailed message)) st
  end.

(** *** [handleGenerateDescription] *)

(** Up to the call of [generateDescription]; the second component is the
    image the call is made with, when it is made. *)
Definition handleGenerateDescription_begin (st : State) : State * option ImageFile.t :=
  match FormState.productImage (formState st) with
  | None => (st, None)
  | Some productImage =>
      let st := setIsDescriptionLoading true st in
      let st := setError None st in
      (st, Some productImage)
  end.

(** After [generateDescription] has settled. *)
Definition handleGenerateDescription_settled (outcome : Result string) (st : State)
  : State :=
  let st :=
    match outcome with
    | Ok desc => setFormState (FormState.with_productDescription desc (formState st)) st
    | Throw message =>
        let st := promptForKey message st in
        setError (Some ("Failed to generate description: " +:+ message)) st
    end in
  setIsDescriptionLoading false st.

(** *** The image viewer *)

Definition successfulImages (st : State) : list ImageResult.t :=
  List.filter (fun img => Status_eqb (ImageResult.status img) StSuccess) (images st).

(** [xs.findIndex(p)]; [None] stands for -1. *)
Fixpoint findIndex {A : Type} (p : A -> bool) (xs : list A) : option nat :=
  match xs with
  | [] => None
  | x :: xs' => if p x then Some O else option_map Datatypes.S (findIndex p xs')
  end.

Definition viewingImageIndex (st : State) : option nat :=
  match viewingImageId st with
  | Some imageId =>
      if Js.truthy imageId
      then findIndex (fun img => String.eqb (ImageResult.id img) imageId)
             (successfulImages st)
      else None
  | None => None
  end.

Definition handleViewImage (imageId : string) (st : State) : State :=
  setViewingImageId (Some imageId) st.

Definition handleCloseImageModal (st : State) : State := setViewingImageId None st.

(** [handleNextImage] and [handlePrevImage]: the image at
    [offset index length] of [successfulImages]; [(index - 1 + length) %
    length] is written with the subtraction last, as it is done on natural
    numbers here. *)
Definition handleStepImage (offset : nat -> nat -> nat) (st : State) : State :=
  match viewingImageIndex st with
  | Some index =>
      if Nat.ltb 1 (length (successfulImages st)) then
        match successfulImages st !! offset index (length (successfulImages st)) with
        | Some img => setViewingImageId (Some (ImageResult.id img)) st
        | None => st
        end
      else st
  | None => st
  end.

Definition handleNextImage : State -> State :=
  handleStepImage (fun index n => Nat.modulo (index + 1) n).

Definition handlePrevImage : State -> State :=
  handleStepImage (fun index n => Nat.modulo (index + n - 1) n).

(** *** [handleViewHistoryItem] *)

Definition handleViewHistoryItem (entry : HistoryEntry.t) (st : State) : State :=
  let st := setFormState (HistoryEntry.formState entry) st in
  let st := setImages (fun _ => HistoryEntry.images entry) st in
  setError None st.

End App.

(** ** The running application

    The component state together with the asynchronous calls that have
    been made and have not settled yet.  A step is the part of a handler
    between two [await]s, followed by the render it causes; handlers of
    different requests interleave freely between steps.  Saving an API
    key reloads the page: the component is mounted again with the history
    it had, and what was in flight is lost. *)

Module World.

Inductive Pending :=
| AwaitPoses (formState : FormState.t)
| AwaitImage (formState : FormState.t) (poseTasks : list string) (index : nat)
| AwaitRegenerate (imageId : string)
| AwaitVideo (imageId : string) (call : App.VideoCall)
| AwaitDescription.

Record t := mk {
  app : App.State;
  pending : list Pending
}.

(** The continuation of [handleGenerate] once [generatePoses] has
    settled: the items are created and the first image is requested, or
    the batch fails. *)
Definition posesSettled (now : nat -> Z) (formState : FormState.t)
    (planning : Answer ParsedJson) (st : App.State) : App.State * list Pending :=
  match generatePoses planning with
  | Ok [] =>
      (App.handleGenerate_finally
         (App.handleGenerate_catch
            "The AI failed to generate any poses. Try adjusting the description." st), [])
  | Ok poseTasks =>
      (App.setImages (fun _ => App.initialImages now formState poseTasks) st,
       [AwaitImage formState poseTasks 0])
  | Throw message =>
      (App.handleGenerate_finally (App.handleGenerate_catch message st), [])
  end.

(** The callback of one round of [generatePhotos]. *)
Definition imageCallback (index : nat) (answer : Answer Response.t) (st : App.State)
  : App.State :=
  match generateImage answer with
  | Ok imageUrl => App.onSuccess index imageUrl st
  | Throw message =>
      App.onError index (Js.or_else message "An unknown error occurred.") st
  end.

(** One round of [generatePhotos] once its image has settled: the
    callback, then the next round or the end of the batch. *)
Definition imageSettled (formState : FormState.t) (poseTasks : list string)
    (index : nat) (answer : Answer Response.t) (st : App.State)
  : App.State * list Pending :=
  let st := imageCallback index answer st in
  if Nat.ltb (Datatypes.S index) (length poseTasks)
  then (st, [AwaitImage formState poseTasks (Datatypes.S index)])
  else (App.handleGenerate_finally st, []).

Inductive step : t -> t -> Prop :=
| EditForm clock formState w :
    step w (mk (App.historyEffect clock (App.setFormState formState (app w)))
              (pending w))
| GenerateBegin clock w :
    step w (mk (App.historyEffect clock (App.handleGenerate_begin (app w)))
              (AwaitPoses (App.formState (app w)) :: pending w))
| PosesSettled clock now planning formState before after w st next :
    pending w = before ++ AwaitPoses formState :: after ->
    posesSettled now formState planning (app w) = (st, next) ->
    step w (mk (App.historyEffect clock st) (before ++ next ++ after))
| ImageSettled clock answer formState poseTasks index before after w st next :
    pending w = before ++ AwaitImage formState poseTasks index :: after ->
    imageSettled formState poseTasks index answer (app w) = (st, next) ->
    step w (mk (App.historyEffect clock st) (before ++ next ++ after))
| Regenerate clock imageId newStyle newPrompt w st call :
    App.handleRegenerate_begin imageId newStyle newPrompt (app w) = (st, call) ->
    step w (mk (App.historyEffect clock st)
              (match call with
               | Some _ => AwaitRegenerate imageId :: pending w
               | None => pending w
               end))
| RegenerateSettled clock answer imageId before after w :
    pending w = before ++ AwaitRegenerate imageId :: after ->
    step w (mk (App.historyEffect clock
                  (App.handleRegenerate_settled imageId (generateImage answer) (app w)))
              (before ++ after))
| VideoAction clock imageId aspectRatio w st call :
    App.handleVideoAction_begin imageId aspectRatio (app w) = (st, call) ->
    step w (mk (App.historyEffect clock st)
              (match call with
               | Some c => AwaitVideo imageId c :: pending w
               | None => pending w
               end))
| VideoSettled clock outcome imageId call before after w :
    pending w = before ++ AwaitVideo imageId call :: after ->
    step w (mk (App.historyEffect clock
                  (App.handleVideoAction_settled imageId call outcome (app w)))
              (before ++ after))
| ViewHistoryItem clock entry w :
    In entry (App.history (app w)) ->
    step w (mk (App.historyEffect clock (App.handleViewHistoryItem entry (app w)))
              (pending w))
| Describe clock w st call :
    App.handleGenerateDescription_begin (app w) = (st, call) ->
    step w (mk (App.historyEffect clock st)
              (match call with
               | Some _ => AwaitDescription :: pending w
               | None => pending w
               end))
| DescribeSettled clock answer before after w :
    pending w = before ++ AwaitDescription :: after ->
    step w (mk (App.historyEffect clock
                  (App.handleGenerateDescription_settled (generateDescription answer)
                     (app w)))
              (before ++ after))
| ViewImage clock imageId w :
    step w (mk (App.historyEffect clock (App.handleViewImage imageId (app w)))
              (pending w))
| CloseImageModal clock w :
    step w (mk (App.historyEffect clock (App.handleCloseImageModal (app w)))
              (pending w))
| NextImage clock w :
    step w (mk (App.historyEffect clock (App.handleNextImage (app w))) (pending w))
| PrevImage clock w :
    step w (mk (App.historyEffect clock (App.handlePrevImage (app w))) (pending w))
| CloseVideoModal clock w :
    step w (mk (App.historyEffect clock (App.setViewingVideo None (app w)))
              (pending w))
| RemoveFromHistory clock id w :
    step w (mk (App.historyEffect clock (App.setHistory (removeFromHistory id) (app w)))
              (pending w))
| ClearHistory clock w :
    step w (mk (App.historyEffect clock (App.setHistory clearHistory (app w)))
              (pending w))
| SaveApiKey hasApiKey w :
    step w (mk (App.initial hasApiKey (App.history (app w))) []).

Inductive steps : t -> t -> Prop :=
| steps_refl w : steps w w
| steps_step w1 w2 w3 : steps w1 w2 -> step w2 w3 -> steps w1 w3.

(** The steps as functions of the world they start from, for running a
    history; a call that settles is taken from the head of [pending]. *)

Definition generateBegin (clock : Clock) (w : t) : t :=
  mk (App.historyEffect clock (App.handleGenerate_begin (app w)))
     (AwaitPoses (App.formState (app w)) :: pending w).

Definition afterPoses (clock : Clock) (now : nat -> Z) (planning : Answer ParsedJson)
    (formState : FormState.t) (after : list Pending) (w : t) : t :=
  let settled := posesSettled now formState planning (app w) in
  mk (App.historyEffect clock (fst settled)) ([] ++ snd settled ++ after).

Definition afterImage (clock : Clock) (answer : Answer Response.t)
    (formState : FormState.t) (poseTasks : list string) (index : nat)
    (after : list Pending) (w : t) : t :=
  let settled := imageSettled formState poseTasks index answer (app w) in
  mk (App.historyEffect clock (fst settled)) ([] ++ snd settled ++ after).

Definition regenerate (clock : Clock) (imageId newStyle newPrompt : string) (w : t) : t :=
  let begun := App.handleRegenerate_begin imageId newStyle newPrompt (app w) in
  mk (App.historyEffect clock (fst begun))
     (match snd begun with
      | Some _ => AwaitRegenerate imageId :: pending w
      | None => pending w
      end).

Definition afterRegenerate (clock : Clock) (answer : Answer Response.t)
    (imageId : string) (after : list Pending) (w : t) : t :=
  mk (App.historyEffect clock
        (App.handleRegenerate_settled imageId (generateImage answer) (app w)))
     ([] ++ after).

(** How many regenerations of one item are in flight. *)
Definition regenerationsInFlight (imageId : string) (w : t) : nat :=
  length (List.filter (fun p => match p with
                                | AwaitRegenerate i => String.eqb i imageId
                                | _ => false
                                end) (pending w)).

End World.

(** ** What a finished batch looks like *)

(** The item of index [index] once its image has settled. *)
Definition settle (answers : nat -> Answer Response.t) (index : nat)
    (img : ImageResult.t) : ImageResult.t :=
  match generateImage (answers index) with
  | Ok imageUrl => ImageResult.succeeded imageUrl img
  | Throw message => ImageResult.failed message img
  end.

(** The image requests among the events, in the order they were made. *)
Fixpoint imageCalls (events : list Event) : list (list RequestPart) :=
  match events with
  | [] => []
  | CallGenerateImage parts :: events' => parts :: imageCalls events'
  | _ :: events' => imageCalls events'
  end.

Definition terminal (s : Status) : Prop := s = StSuccess \/ s = StError.

Definition inRange (index n i : nat) : bool :=
  Nat.leb index i && Nat.ltb i (index + n).

(** The items of indices [index] to [index + n - 1] settled, the others
    left as they are. *)
Definition settleRange (answers : nat -> Answer Response.t) (index n : nat)
    (images : list ImageResult.t) : list ImageResult.t :=
  imap (fun i img => if inRange index n i then settle answers i img else img) images.

(** The message [handleGenerate] fails with when planning gives no pose. *)
Definition planningFailure (poses : Result (list string)) : option string :=
  match poses with
  | Ok [] => Some "The AI failed to generate any poses. Try adjusting the description."
  | Ok (_ :: _) => None
  | Throw message => Some message
  end.

(** ** What a video request does *)

(** The request went through: the call of [generateVideoFromImage] is
    made with the photo of the item, and the items of that id are loading
    their video with no video error left. *)
Definition videoJobStarted (imageId aspectRatio : string) (st : App.State)
    (img : ImageResult.t) (begun : App.State * option App.VideoCall) : Prop :=
  snd begun = Some (App.mkVideoCall (ImageResult.src img) aspectRatio)
  /\ App.images (fst begun) = App.updateById imageId ImageResult.videoStarted (App.images st)
  /\ (exists item, In item (App.images (fst begun)) /\ ImageResult.id item = imageId)
  /\ (forall item, In item (App.images (fst begun)) -> ImageResult.id item = imageId ->
        ImageResult.videoStatus item = Some VLoading
        /\ ImageResult.videoError item = None).

(** The request only opened the viewer on the video the item has. *)
Definition videoShown (st : App.State) (img : ImageResult.t)
    (begun : App.State * option App.VideoCall) : Prop :=
  snd begun = None
  /\ App.images (fst begun) = App.images st
  /\ App.viewingVideo (fst begun)
     = Some (ViewingVideoState.mk (Js.of_opt (ImageResult.videoSrc img))
               (ImageResult.src img)).

(** ** Photo fields and photo status *)

Definition photoResultPresent (img : ImageResult.t) : Prop :=
  Js.truthy (ImageResult.src img) = true.

Definition photoErrorPresent (img : ImageResult.t) : Prop :=
  ImageResult.error img <> None.

(** The invariant as the specification states it: the two fields exclude
    each other and each is present exactly in its own status. *)
Definition photoFieldsExclusive (img : ImageResult.t) : Prop :=
  ~ (photoResultPresent img /\ photoErrorPresent img)
  /\ (photoResultPresent img <-> ImageResult.status img = StSuccess)
  /\ (photoErrorPresent img <-> ImageResult.status img = StError).

(** What the handlers keep: the field of the status is present; the
    other field may be left over from an earlier outcome. *)
Definition photoFieldsAgree (img : ImageResult.t) : Prop :=
  (ImageResult.status img = StSuccess -> photoResultPresent img)
  /\ (ImageResult.status img = StError -> photoErrorPresent img).

Definition stateOk (st : App.State) : Prop :=
  Forall photoFieldsAgree (App.images st)
  /\ Forall (fun entry => Forall photoFieldsAgree (HistoryEntry.images entry))
       (App.history st).

(** ** Concrete runs *)

Module Scenario.

Definition clock : Clock := mkClock 1700000000000 "2023-11-14T22:13:20.000Z".
Definition now (index : nat) : Z := 1699999990000.

(** A response that carries an image. *)
Definition imageResponse (bytes : string) : Response.t :=
  Response.mk None
    (Some [Response.mkCandidate (Some "STOP") None
             (Some [Response.mkPart
                      (Some (Response.mkBlob (Some bytes) (Some "image/png"))) None])]).

(** A response the safety filter stopped. *)
Definition safetyResponse : Response.t :=
  Response.mk None
    (Some [Response.mkCandidate (Some "SAFETY")
             (Some [SafetyRating.mk "HARM_CATEGORY_DANGEROUS_CONTENT" (Some "HIGH");
                    SafetyRating.mk "HARM_CATEGORY_HARASSMENT" (Some "LOW")])
             None]).

Definition safetyMessage : string :=
  "Image blocked due to safety filters. Details: DANGEROUS_CONTENT (HIGH) Please adjust your prompt.".

(** The form of scenarios A to C: two photos, no delay. *)
Definition form : FormState.t :=
  FormState.mk None None "a red scarf" 2 0 "e-commerce" "9:16".

Definition mounted : App.State :=
  App.setFormState form (App.initial true []).

Definition twoPoses : Answer ParsedJson := Resolved (Poses ["pose-a"; "pose-b"]).

(** Scenario A: both images succeed. *)
Definition answersA (index : nat) : Answer Response.t :=
  Resolved (imageResponse "AAAA").

(** Scenario B: the image of pose-a is stopped, the image of pose-b
    succeeds. *)
Definition answersB (index : nat) : Answer Response.t :=
  match index with
  | O => Resolved safetyResponse
  | _ => Resolved (imageResponse "BBBB")
  end.

(** Three photos are asked for, planning answers with two poses. *)
Definition formOfThree : FormState.t :=
  FormState.mk None None "a red scarf" 3 0 "e-commerce" "9:16".

Definition mountedForThree : App.State :=
  App.setFormState formOfThree (App.initial true []).

(** The id [handleGenerate] gives the first item of these runs. *)
Definition id0 : string := "1699999990000-0".

Definition afterA : App.State :=
  fst (App.handleGenerate clock now twoPoses answersA mounted).

Definition afterB : App.State :=
  fst (App.handleGenerate clock now twoPoses answersB mounted).

Definition video : string := "data:video/mp4;base64,VVVV".

(** Scenario A, then a video of the first photo, which succeeds. *)
Definition afterVideo : App.State :=
  let begun := App.handleVideoAction_begin id0 "9:16" afterA in
  match snd begun with
  | Some call => App.handleVideoAction_settled id0 call (Ok video) (fst begun)
  | None => fst begun
  end.

(** Scenario A, then a video of the first photo, which fails. *)
Definition afterVideoFailed : App.State :=
  let begun := App.handleVideoAction_begin id0 "9:16" afterA in
  match snd begun with
  | Some call =>
      App.handleVideoAction_settled id0 call
        (Throw "Video generation failed or did not return a valid URI.") (fst begun)
  | None => fst begun
  end.

(** The first item of scenario A: as generated, with its video, and with
    its failed video. *)
Definition photoA : ImageResult.t :=
  ImageResult.mk id0 "data:image/png;base64,AAAA" "pose-a" "e-commerce" "9:16"
    StSuccess None None (Some VIdle) None.

Definition photoA_video : ImageResult.t :=
  ImageResult.mk id0 "data:image/png;base64,AAAA" "pose-a" "e-commerce" "9:16"
    StSuccess None (Some video) (Some VSuccess) None.

Definition photoA_videoFailed : ImageResult.t :=
  ImageResult.mk id0 "data:image/png;base64,AAAA" "pose-a" "e-commerce" "9:16"
    StSuccess None None (Some VError)
    (Some "Video generation failed or did not return a valid URI.").

(** Scenario D: the submission returns a handle, the first two polls find
    the operation pending, the third finds it done, and the video is
    fetched. *)
Definition pendingOperation : Operation.t := Operation.mk false None.
Definition doneOperation : Operation.t :=
  Operation.mk true (Some "https://videos.example/v1?alt=media").

(** The groups of the match on the photo of scenario A. *)
Definition matchPhotoA (url : string) : option (string * string) :=
  if String.eqb url "data:image/png;base64,AAAA" then Some ("image/png", "AAAA")
  else None.

(** A component mounted with an empty history generates one photo, which
    is then regenerated in another style. *)
Definition onePose : Answer ParsedJson := Resolved (Poses ["pose-a"]).
Definition fs0 : FormState.t := App.formState (App.initial true []).

Definition w0 : World.t := World.mk (App.initial true []) [].

Definition w1 : World.t := World.generateBegin clock w0.

Definition w2 : World.t := World.afterPoses clock now onePose fs0 [] w1.

Definition w3 : World.t :=
  World.afterImage clock (Resolved (imageResponse "AAAA")) fs0 ["pose-a"] 0 [] w2.

Definition w4 : World.t := World.regenerate clock id0 "cinematic" "pose-a" w3.

(** A second request for the same item while the first is in flight. *)
Definition w5 : World.t := World.regenerate clock id0 "vintage" "pose-a" w4.

(** The image of the first regeneration is refused. *)
Definition w5_refused : World.t :=
  World.afterRegenerate clock (Resolved safetyResponse) id0 [] w4.

End Scenario.

(** ** services/geminiService.ts: the API key and the client

    The module keeps a client and the key it was built with.  The key is
    read from local storage, then from the environment.  [localStorage]
    may refuse to be read or written (it throws); the two flags say so for
    one use of it. *)

Module Client.

Record Storage := mkStorage {
  getItemThrows : bool;
  setItemThrows : bool;
  item : option string (* what is stored under [gemini_api_key] *)
}.

(** The module variables: [ai], a client, written as the key it was
    built with, and [currentApiKey]. *)
Record t := mk {
  ai : option string;
  currentApiKey : option string
}.

(** The module when it is loaded. *)
Definition loaded : t := mk None None.

(** [o || null] on a string that may be missing. *)
Definition or_null (o : option string) : option string :=
  if present o then o else None.

(** [envKey] is [process.env.API_KEY]. *)
Definition getApiKey (envKey : option string) (storage : Storage) : option string :=
  if negb (getItemThrows storage) && present (item storage)
  then item storage
  else or_null envKey.

Definition setApiKey (key : string) (storage : Storage) (m : t) : Storage * t :=
  if setItemThrows storage then (storage, m)
  else (mkStorage (getItemThrows storage) (setItemThrows storage) (Some key),
        mk None None).

Definition hasApiKey (envKey : option string) (storage : Storage) : bool :=
  present (getApiKey envKey storage).

(** [a === b] on keys that may be null. *)
Definition key_eqb (a b : option string) : bool :=
  match a, b with
  | Some x, Some y => String.eqb x y
  | None, None => true
  | _, _ => false
  end.

(** The client returned (or the error thrown) and the module afterwards. *)
Definition getAiClient (envKey : option string) (storage : Storage) (m : t)
  : Result string * t :=
  let apiKey := getApiKey envKey storage in
  match ai m with
  | Some client =>
      if key_eqb (currentApiKey m) apiKey then (Ok client, m)
      else if negb (present apiKey) then (Throw apiKeyNotFound, m)
      else (Ok (Js.of_opt apiKey), mk apiKey apiKey)
  | None =>
      if negb (present apiKey) then (Throw apiKeyNotFound, m)
      else (Ok (Js.of_opt apiKey), mk apiKey apiKey)
  end.

(** What may happen to the module: a key is saved, or a client is asked
    for; storage and environment are whatever they are at that moment. *)
Inductive step : t -> t -> Prop :=
| SetApiKey key storage m : step m (snd (setApiKey key storage m))
| GetAiClient envKey storage m : step m (snd (getAiClient envKey storage m)).

Inductive reachable : t -> Prop :=
| reachable_loaded : reachable loaded
| reachable_step m m' : reachable m -> step m m' -> reachable m'.

End Client.

(** ** The pacing of a batch *)




(** ** The image viewer: what is shown *)

(** [viewingImageIndex !== -1 ? successfulImages[viewingImageIndex] : null] *)
Definition viewingImage (st : App.State) : option ImageResult.t :=
  match App.viewingImageIndex st with
  | Some index => App.successfulImages st !! index
  | None => None
  end.

(** ** What the client module keeps *)

(** The client the module holds was built with [currentApiKey], a key that
    is not empty. *)
Definition clientCoherent (m : Client.t) : Prop :=
  forall client, Client.ai m = Some client ->
                 Client.currentApiKey m = Some client /\ Js.truthy client = true.

(** ** The conditions [generateImage] tests on a response *)

(** [response.promptFeedback?.blockReason] *)
Definition promptBlocked (response : Response.t) : bool :=
  match Response.promptFeedback response with
  | Some pf => present (Response.blockReason pf)
  | None => false
  end.

(** [candidate.finishReason && candidate.finishReason !== 'STOP' &&
    candidate.finishReason !== 'MAX_TOKENS'] *)
Definition stoppedEarly (candidate : Response.Candidate) : bool :=
  present (Response.finishReason candidate)
  && negb (String.eqb (Js.of_opt (Response.finishReason candidate)) "STOP")
  && negb (String.eqb (Js.of_opt (Response.finishReason candidate)) "MAX_TOKENS").

(** [`data:${part.inlineData.mimeType};base64,${base64ImageBytes}`] *)
Definition dataUrlOf (blob : Response.Blob) : string :=
  "data:" +:+ Js.of_opt (Response.mimeType blob) +:+ ";base64,"
  +:+ Js.of_opt (Response.data blob).

(** ** What a render archives *)

(** What no handler touches: the flag the history effect remembers, and
    the history. *)
Definition keepsArchive (st st' : App.State) : Prop :=
  App.prevIsLoading st' = App.prevIsLoading st /\ App.history st' = App.history st.

(** A batch ended between two renders, and the second render archived it. *)
Definition batchArchived (st st' : App.State) : Prop :=
  App.isLoading st = true /\ App.isLoading st' = false
  /\ exists clock formState,
       App.lastUsedFormState st' = Some formState
       /\ App.history st'
          = addToHistory clock formState (App.images st') (App.history st).

(** ** Reading an item id *)

(** The text after the last dash of a string, when it has a dash. *)
Fixpoint afterLastDash (s : string) : option string :=
  match s with
  | EmptyString => None
  | String c s' =>
      match afterLastDash s' with
      | Some t => Some t
      | None => if Ascii.eqb c "-" then Some s' else None
      end
  end.

(** ** The order of the history *)

(** [a] may stand before [b] in a history that is newest first. *)
Definition notOlder (a b : HistoryEntry.t) : Prop :=
  HistoryEntry.id b <= HistoryEntry.id a.

Definition newestFirst (history : list HistoryEntry.t) : Prop :=
  StronglySorted notOlder history.

(** The entries of one id, in the order they stand in. *)
Definition entriesOf (id : Z) (history : list HistoryEntry.t) : list HistoryEntry.t :=
  List.filter (fun entry => HistoryEntry.id entry =? id) history.

(** ** The polling of a video job *)

(** [n] rounds of the polling loop: a wait of ten seconds, then a poll. *)
Fixpoint pollRounds (n : nat) : list Event :=
  match n with
  | O => []
  | S n' => Sleep 10000 :: PollVideoJob :: pollRounds n'
  end.

(** ** utils.ts: [downloadImagesAsZip] *)









(** ** More concrete runs *)

Module ScenarioKey.
(** A browser that stores keys, with one key stored. *)
Definition storageWith (key : string) : Client.Storage :=
  Client.mkStorage false false (Some key).
(** The module after a client was made with a first key. *)
Definition used : Client.t :=
  snd (Client.getAiClient None (storageWith "key-1") Client.loaded).
End ScenarioKey.

Module ScenarioHistory.
(** An older entry, made with another form, holding the first photo of
    scenario A. *)
Definition entry : HistoryEntry.t :=
  HistoryEntry.mk 1690000000000 "2023-07-22T04:26:40.000Z" Scenario.formOfThree
    [Scenario.photoA].
End ScenarioHistory.

(** * Properties *)

(** ** Strings *)

Lemma append_cons (x : ascii) (a b : string) :
  String x a +:+ b = String x (a +:+ b).
Proof. reflexivity. Qed.

Lemma append_assoc (a b c : string) : (a +:+ b) +:+ c = a +:+ (b +:+ c).
Proof.
  induction a as [|x a IH]; [reflexivity|].
  now rewrite !append_cons, IH.
Qed.

Lemma append_empty_r (a : string) : a +:+ EmptyString = a.
Proof.
  induction a as [|x a IH]; [reflexivity|].
  now rewrite append_cons, IH.
Qed.

Lemma startsWith_truthy (p s : string) :
  Js.truthy p = true -> Js.startsWith p s = true -> Js.truthy s = true.
Proof. destruct p, s; simpl; intros; congruence. Qed.

Lemma or_else_truthy (a b : string) : Js.truthy a = true -> Js.or_else a b = a.
Proof. unfold Js.or_else. now intros ->. Qed.

(** ** The prompt builder *)

Lemma styleClause_known (k : PromptSpec.Style) :
  PromptSpec.styleClause (PromptSpec.styleName k) = PromptSpec.styleText k.
Proof. destruct k; reflexivity. Qed.

Lemma recognize_None (s : string) :
  (forall k, s <> PromptSpec.styleName k) -> PromptSpec.recognize s = None.
Proof.
  intros H. unfold PromptSpec.recognize.
  destruct (List.find _ _) as [k|] eqn:E; [|reflexivity].
  apply List.find_some in E as [_ E]. apply String.eqb_eq in E. now destruct (H k).
Qed.

Lemma constructPrompt_buildPrompt (fs : FormState.t) (pose : string) :
  constructPrompt fs pose = PromptSpec.buildPrompt fs pose.
Proof.
  unfold constructPrompt, PromptSpec.buildPrompt, PromptSpec.styleClause,
    PromptSpec.recognize, PromptSpec.references, PromptSpec.preamble,
    PromptSpec.poseClause, PromptSpec.ratioClause.
  destruct fs as [product model d n dl sty ar]; cbn [FormState.productDescription
    FormState.modelImage FormState.productImage FormState.style FormState.aspectRatio].
  assert (Hd : forall t, (if Js.truthy d
                          then t +:+ (" The product is: " +:+ Js.dq +:+ d +:+ Js.dq +:+ ".")
                          else t) = t +:+ PromptSpec.descriptionClause d).
  { intros t. destruct d; simpl; [now rewrite append_empty_r | reflexivity]. }
  rewrite Hd. clear Hd.
  generalize (PromptSpec.descriptionClause d). intros dc.
  assert (Hr : forall t,
             match model, product with
             | Some _, Some _ =>
                 t +:+ " Featuring the attached model posing with the attached product."
             | Some _, None => t +:+ " Featuring the attached model in a commercial setting."
             | None, Some _ =>
                 t +:+ " Featuring a fashion model posing with the attached product."
             | None, None =>
                 t +:+ " Featuring a fashion model posing with a generic commercial product."
             end = t +:+ PromptSpec.referenceClause
                           match model, product with
                           | Some _, Some _ => PromptSpec.BothImages
                           | Some _, None => PromptSpec.ModelOnly
                           | None, Some _ => PromptSpec.ProductOnly
                           | None, None => PromptSpec.NoImages
                           end).
  { intros t. destruct model, product; reflexivity. }
  rewrite Hr. clear Hr.
  generalize (PromptSpec.referenceClause
                match model, product with
                | Some _, Some _ => PromptSpec.BothImages
                | Some _, None => PromptSpec.ModelOnly
                | None, Some _ => PromptSpec.ProductOnly
                | None, None => PromptSpec.NoImages
                end). intros rc.
  generalize (" The model's pose is: " +:+ Js.dq +:+ pose +:+ Js.dq +:+ "."). intros pc.
  generalize (" The image must have a " +:+ ar +:+ " aspect ratio."). intros ac.
  unfold PromptSpec.allStyles. cbn [List.find PromptSpec.styleName].
  repeat match goal with
         | |- context [String.eqb sty ?lit] => destruct (String.eqb sty lit)
         end;
    cbn [PromptSpec.styleText]; unfold PromptSpec.fallbackClause;
    rewrite !append_assoc; reflexivity.
Qed.

Lemma referenceClause_inj (r1 r2 : PromptSpec.References) :
  PromptSpec.referenceClause r1 = PromptSpec.referenceClause r2 -> r1 = r2.
Proof. destruct r1, r2; intros H; try reflexivity; discriminate H. Qed.

(** C9. [constructPrompt] is a function of the form state and the pose
    alone, and its text is the concatenation, in this order, of the fixed
    preamble, the description clause (empty for an empty description), one
    of four distinct reference-image clauses chosen by which images are
    attached, the pose clause, the aspect-ratio clause and the style clause;
    each of the nine styles of the enumeration has its fixed clause and any
    other style name gets the generic clean-studio clause.  The text reads
    no other field: form states that agree on the description, on which
    images are attached, on the aspect ratio and on the style give the same
    prompt, character for character. *)
Theorem C9_constructPrompt_deterministic_concatenation :
  (forall fs pose,
      constructPrompt fs pose =
      PromptSpec.preamble
        +:+ PromptSpec.descriptionClause (FormState.productDescription fs)
        +:+ PromptSpec.referenceClause (PromptSpec.references fs)
        +:+ PromptSpec.poseClause pose
        +:+ PromptSpec.ratioClause (FormState.aspectRatio fs)
        +:+ PromptSpec.styleClause (FormState.style fs))
  /\ (forall d, PromptSpec.descriptionClause d = EmptyString <-> d = EmptyString)
  /\ (forall r1 r2,
         PromptSpec.referenceClause r1 = PromptSpec.referenceClause r2 -> r1 = r2)
  /\ (forall k, PromptSpec.styleClause (PromptSpec.styleName k) = PromptSpec.styleText k)
  /\ (forall s, (forall k, s <> PromptSpec.styleName k) ->
                PromptSpec.styleClause s = PromptSpec.fallbackClause s)
  /\ (forall fs1 fs2 pose1 pose2,
         FormState.productDescription fs1 = FormState.productDescription fs2 ->
         PromptSpec.references fs1 = PromptSpec.references fs2 ->
         FormState.aspectRatio fs1 = FormState.aspectRatio fs2 ->
         FormState.style fs1 = FormState.style fs2 ->
         pose1 = pose2 ->
         constructPrompt fs1 pose1 = constructPrompt fs2 pose2).
Proof.
  split; [exact constructPrompt_buildPrompt|].
  split.
  { intros d. split; [|now intros ->]. destruct d; [reflexivity | discriminate]. }
  split; [exact referenceClause_inj|].
  split; [exact styleClause_known|].
  split.
  { intros s Hs. unfold PromptSpec.styleClause. now rewrite recognize_None. }
  intros fs1 fs2 pose1 pose2 Hd Hr Ha Hs ->.
  rewrite !constructPrompt_buildPrompt. unfold PromptSpec.buildPrompt.
  now rewrite Hd, Hr, Ha, Hs.
Qed.

(** ** The image gateway wrapper *)

Lemma isCustomError_truthy (m : string) : isCustomError m = true -> Js.truthy m = true.
Proof.
  unfold isCustomError, customErrorPrefixes. cbn [existsb].
  rewrite !orb_true_iff.
  intros H; repeat destruct H as [H|H]; try discriminate H;
    (eapply startsWith_truthy; [|exact H]; reflexivity).
Qed.

Lemma generateImage_catch_throws (m0 : string) :
  exists m, generateImage_catch m0 = Throw m /\ Js.truthy m = true.
Proof.
  unfold generateImage_catch. destruct (isCustomError m0) eqn:E.
  - exists m0. split; [reflexivity | now apply isCustomError_truthy].
  - eexists. split; [reflexivity | reflexivity].
Qed.

(** Every error [generateImage] throws has a message. *)
Lemma generateImage_message (answer : Answer Response.t) (m : string) :
  generateImage answer = Throw m -> Js.truthy m = true.
Proof.
  unfold generateImage. destruct answer as [|m0|r].
  - intros [= <-]. reflexivity.
  - destruct (generateImage_catch_throws m0) as (m' & -> & Hm). now intros [= <-].
  - destruct (generateImage_try r); [discriminate|].
    destruct (generateImage_catch_throws message) as (m' & -> & Hm). now intros [= <-].
Qed.

(** Every image [generateImage] returns is a data URL, so not empty. *)
Lemma generateImage_url (answer : Answer Response.t) (u : string) :
  generateImage answer = Ok u -> Js.startsWith "data:" u = true.
Proof.
  unfold generateImage. destruct answer as [|m0|r].
  - discriminate.
  - destruct (generateImage_catch_throws m0) as (m' & -> & _). discriminate.
  - destruct (generateImage_try r) as [u'|m0] eqn:E.
    + intros [= <-]. revert E. unfold generateImage_try.
      repeat match goal with
             | |- context [match ?x with _ => _ end] => destruct x eqn:?
             end; try discriminate; intros [= <-]; reflexivity.
    + destruct (generateImage_catch_throws m0) as (m' & -> & _). discriminate.
Qed.

Lemma generateImage_url_truthy (answer : Answer Response.t) (u : string) :
  generateImage answer = Ok u -> Js.truthy u = true.
Proof.
  intros H%generateImage_url. eapply startsWith_truthy; [|exact H]. reflexivity.
Qed.

(** The errors raised inside the [try] block are the module's own: the
    [catch] block hands them on unchanged. *)
Lemma generateImage_try_custom (r : Response.t) (m : string) :
  generateImage_try r = Throw m -> isCustomError m = true.
Proof.
  unfold generateImage_try.
  repeat match goal with
         | |- context [match ?x with _ => _ end] => destruct x eqn:?
         end; try discriminate; intros [= <-]; reflexivity.
Qed.

Lemma generateImage_resolved_throw (r : Response.t) (m : string) :
  generateImage_try r = Throw m -> generateImage (Resolved r) = Throw m.
Proof.
  intros H. unfold generateImage, generateImage_catch.
  now rewrite H, (generateImage_try_custom _ _ H).
Qed.

(** ** The component state *)

Lemma setImages_id (f : list ImageResult.t -> list ImageResult.t) (st : App.State) :
  f (App.images st) = App.images st -> App.setImages f st = st.
Proof. destruct st; unfold App.setImages; cbn. now intros ->. Qed.

Lemma setImages_setImages (f g : list ImageResult.t -> list ImageResult.t) (st : App.State) :
  App.setImages f (App.setImages g st) = App.setImages (fun l => f (g l)) st.
Proof. reflexivity. Qed.

Lemma setImages_ext (f g : list ImageResult.t -> list ImageResult.t) (st : App.State) :
  f (App.images st) = g (App.images st) -> App.setImages f st = App.setImages g st.
Proof. unfold App.setImages. now intros ->. Qed.

(** While a batch is running and the effect has seen it running, a render
    changes nothing. *)
Lemma historyEffect_running (clock : Clock) (st : App.State) :
  App.isLoading st = true -> App.prevIsLoading st = true ->
  App.historyEffect clock st = st.
Proof.
  destruct st; cbn. intros -> ->. reflexivity.
Qed.

Lemma historyEffect_images (clock : Clock) (st : App.State) :
  App.images (App.historyEffect clock st) = App.images st.
Proof.
  destruct st as [fs imgs l dl e [lu|] v vi k [|] h], l; reflexivity.
Qed.

(** ** The loop of [generatePhotos] *)

Lemma inRange_spec (index n i : nat) :
  inRange index n i = true <-> (index <= i < index + n)%nat.
Proof.
  unfold inRange. rewrite andb_true_iff, Nat.leb_le, Nat.ltb_lt. reflexivity.
Qed.

Lemma inRange_false (index n i : nat) :
  inRange index n i = false <-> ~ (index <= i < index + n)%nat.
Proof. rewrite <- inRange_spec. now destruct (inRange index n i). Qed.

Lemma settleRange_lookup (answers : nat -> Answer Response.t) (index n i : nat)
    (images : list ImageResult.t) :
  settleRange answers index n images !! i
  = (fun img => if inRange index n i then settle answers i img else img) <$> images !! i.
Proof. unfold settleRange. now rewrite list_lookup_imap. Qed.

Lemma updateAt_lookup (index i : nat) (f : ImageResult.t -> ImageResult.t)
    (images : list ImageResult.t) :
  App.updateAt index f images !! i
  = (fun img => if Nat.eqb i index then f img else img) <$> images !! i.
Proof. unfold App.updateAt. now rewrite list_lookup_imap. Qed.

Lemma settleRange_0 (answers : nat -> Answer Response.t) (index : nat)
    (images : list ImageResult.t) :
  settleRange answers index 0 images = images.
Proof.
  apply list_eq. intros i. rewrite settleRange_lookup.
  destruct (images !! i) as [x|]; [|reflexivity]. simpl.
  destruct (inRange index 0 i) eqn:E; [|reflexivity].
  apply inRange_spec in E. lia.
Qed.

Lemma settleRange_S (answers : nat -> Answer Response.t) (index n : nat)
    (images : list ImageResult.t) :
  settleRange answers (S index) n (App.updateAt index (settle answers index) images)
  = settleRange answers index (S n) images.
Proof.
  apply list_eq. intros i. rewrite !settleRange_lookup, updateAt_lookup.
  destruct (images !! i) as [x|]; [|reflexivity]. simpl.
  destruct (Nat.eqb_spec i index) as [->|Hne];
    destruct (inRange (S index) n _) eqn:E1, (inRange index (S n) _) eqn:E2;
    try reflexivity;
    repeat match goal with
           | H : inRange _ _ _ = true |- _ => apply inRange_spec in H
           | H : inRange _ _ _ = false |- _ => apply inRange_false in H
           end; lia.
Qed.

Lemma settleRange_all (answers : nat -> Answer Response.t) (images : list ImageResult.t) :
  settleRange answers 0 (length images) images = imap (settle answers) images.
Proof.
  unfold settleRange. apply imap_ext. intros i x Hx.
  apply lookup_lt_Some in Hx.
  destruct (inRange 0 (length images) i) eqn:E; [reflexivity|].
  apply inRange_false in E. lia.
Qed.

Section BatchLoop.
Variable clock : Clock.
Variable formState : FormState.t.
Variable answers : nat -> Answer Response.t.
Variable total : nat.

Lemma round_settles (index : nat) (st : App.State) :
  App.isLoading st = true -> App.prevIsLoading st = true ->
  match generateImage (answers index) with
  | Ok imageUrl => App.onSuccessRendered clock index imageUrl st
  | Throw message =>
      App.onErrorRendered clock index (Js.or_else message "An unknown error occurred.") st
  end = App.setImages (App.updateAt index (settle answers index)) st.
Proof.
  intros Hl Hp.
  unfold App.onSuccessRendered, App.onErrorRendered, settle, App.onSuccess, App.onError.
  destruct (generateImage (answers index)) as [u|m] eqn:E.
  - now rewrite historyEffect_running.
  - rewrite (or_else_truthy _ _ (generateImage_message _ _ E)).
    now rewrite historyEffect_running.
Qed.

Lemma generatePhotos_from_state (rest : list string) :
  forall (index : nat) (st : App.State),
    App.isLoading st = true -> App.prevIsLoading st = true ->
    fst (generatePhotos_from formState (App.onSuccessRendered clock)
           (App.onErrorRendered clock) answers total index rest st)
    = App.setImages (settleRange answers index (length rest)) st.
Proof.
  induction rest as [|pose rest IH]; intros index st Hl Hp.
  - cbn. symmetry. apply setImages_id, settleRange_0.
  - cbn [generatePhotos_from]. rewrite round_settles by assumption.
    specialize (IH (S index) (App.setImages (App.updateAt index (settle answers index)) st)
                  Hl Hp).
    destruct (generatePhotos_from _ _ _ _ _ _ _ _) as [st' ev]. cbn in IH |- *.
    rewrite IH, setImages_setImages. apply setImages_ext.
    apply settleRange_S.
Qed.

Lemma imageCalls_app_pause (b : bool) (ms : Z) (events : list Event) :
  imageCalls ((if b then [Sleep ms] else []) ++ events) = imageCalls events.
Proof. destruct b; reflexivity. Qed.

Lemma generatePhotos_from_calls {S : Type} (onSuccess onError : nat -> string -> S -> S)
    (rest : list string) :
  forall (index : nat) (s : S),
    imageCalls (snd (generatePhotos_from formState onSuccess onError answers total
                       index rest s))
    = List.map (imageParts formState) rest.
Proof.
  induction rest as [|pose rest IH]; intros index s; [reflexivity|].
  cbn [generatePhotos_from].
  match goal with
  | |- context [generatePhotos_from _ _ _ _ _ ?i rest ?s'] => specialize (IH i s')
  end.
  destruct (generatePhotos_from _ _ _ _ _ _ _ _) as [s' ev]. cbn in IH |- *.
  now rewrite imageCalls_app_pause, IH.
Qed.

End BatchLoop.

(** ** One run of [handleGenerate] *)

Lemma handleGenerate_begin_render (clock : Clock) (st : App.State) :
  App.historyEffect clock (App.handleGenerate_begin st)
  = App.mk (App.formState st) [] true (App.isDescriptionLoading st) None
      (Some (App.formState st)) (App.viewingVideo st) (App.viewingImageId st)
      (App.isApiKeyModalOpen st) true (App.history st).
Proof. destruct st as [fs imgs l dl e lu v vi k [|] h]; reflexivity. Qed.

(** Planning succeeded: every item is settled by its own answer, the
    form state and the settled items are archived, and the images were
    requested pose by pose. *)
Lemma handleGenerate_planned (clock : Clock) (now : nat -> Z)
    (planning : Answer ParsedJson) (answers : nat -> Answer Response.t)
    (st : App.State) (pose : string) (poses : list string) :
  generatePoses planning = Ok (pose :: poses) ->
  let fs := App.formState st in
  let final := imap (settle answers) (App.initialImages now fs (pose :: poses)) in
  fst (App.handleGenerate clock now planning answers st)
  = App.mk fs final false (App.isDescriptionLoading st) None (Some fs)
      (App.viewingVideo st) (App.viewingImageId st) (App.isApiKeyModalOpen st) false
      (addToHistory clock fs final (App.history st))
  /\ imageCalls (snd (App.handleGenerate clock now planning answers st))
     = List.map (imageParts fs) (pose :: poses).
Proof.
  intros Hp fs final. unfold App.handleGenerate.
  rewrite Hp, handleGenerate_begin_render. fold fs.
  set (st1 := App.mk fs [] true _ None (Some fs) _ _ _ true _).
  rewrite (historyEffect_running clock (App.setImages _ st1)) by reflexivity.
  unfold generatePhotos.
  pose proof (generatePhotos_from_state clock fs answers (length (pose :: poses))
                (pose :: poses) 0
                (App.setImages (fun _ => App.initialImages now fs (pose :: poses)) st1)
                eq_refl eq_refl) as Hs.
  pose proof (generatePhotos_from_calls fs answers (length (pose :: poses))
                (App.onSuccessRendered clock) (App.onErrorRendered clock)
                (pose :: poses) 0
                (App.setImages (fun _ => App.initialImages now fs (pose :: poses)) st1))
    as Hc.
  destruct (generatePhotos_from _ _ _ _ _ _ _ _) as [st' ev].
  cbn [fst snd] in Hs, Hc |- *. subst st'. split.
  - assert (Hf : settleRange answers 0 (length (pose :: poses))
                   (App.initialImages now fs (pose :: poses)) = final).
    { unfold final. rewrite <- settleRange_all. f_equal.
      unfold App.initialImages. now rewrite length_imap. }
    unfold st1, App.handleGenerate_finally, App.historyEffect, App.setImages,
      App.setIsLoading, App.setHistory, App.setPrevIsLoading.
    cbn [App.formState App.images App.isLoading App.isDescriptionLoading App.error
           App.lastUsedFormState App.viewingVideo App.viewingImageId
           App.isApiKeyModalOpen App.prevIsLoading App.history andb negb].
    now rewrite Hf.
  - exact Hc.
Qed.

(** Planning failed, or gave no pose: no item, no image request, the
    error is shown, and the render at the end archives the empty batch. *)
Lemma handleGenerate_not_planned (clock : Clock) (now : nat -> Z)
    (planning : Answer ParsedJson) (answers : nat -> Answer Response.t)
    (st : App.State) (message : string) :
  planningFailure (generatePoses planning) = Some message ->
  let fs := App.formState st in
  App.handleGenerate clock now planning answers st
  = (App.mk fs [] false (App.isDescriptionLoading st)
       (Some ("An unexpected error occurred: " +:+ message)) (Some fs)
       (App.viewingVideo st) (App.viewingImageId st)
       (if Js.includes "API key not found" message then true
        else App.isApiKeyModalOpen st)
       false (addToHistory clock fs [] (App.history st)),
     [CallGeneratePoses (FormState.productDescription fs) (FormState.productImage fs)
        (FormState.numberOfImages fs)]).
Proof.
  intros Hp fs. unfold App.handleGenerate.
  rewrite handleGenerate_begin_render. fold fs.
  destruct (generatePoses planning) as [[|p ps]|m]; cbn in Hp; try discriminate;
    injection Hp as <-;
    unfold App.handleGenerate_catch, App.promptForKey, App.handleGenerate_finally;
    match goal with
    | |- context [Js.includes ?a ?b] => destruct (Js.includes a b)
    end; reflexivity.
Qed.

(** ** The history store *)

Lemma insertByRecency_Permutation (e : HistoryEntry.t) (l : list HistoryEntry.t) :
  insertByRecency e l ≡ₚ e :: l.
Proof.
  induction l as [|x l IH]; [reflexivity|]. cbn.
  destruct (HistoryEntry.id e <? HistoryEntry.id x); [|reflexivity].
  rewrite IH. apply Permutation_swap.
Qed.

Lemma saveHistory_Permutation (l : list HistoryEntry.t) : saveHistory l ≡ₚ l.
Proof.
  unfold saveHistory. induction l as [|x l IH]; [reflexivity|]. cbn.
  now rewrite insertByRecency_Permutation, IH.
Qed.

Lemma addToHistory_Permutation (clock : Clock) (fs : FormState.t)
    (images : list ImageResult.t) (h : list HistoryEntry.t) :
  addToHistory clock fs images h
  ≡ₚ HistoryEntry.mk (nowMs clock) (nowISO clock) fs images :: h.
Proof. apply saveHistory_Permutation. Qed.

Lemma addToHistory_In (clock : Clock) (fs : FormState.t)
    (images : list ImageResult.t) (h : list HistoryEntry.t) :
  In (HistoryEntry.mk (nowMs clock) (nowISO clock) fs images)
     (addToHistory clock fs images h).
Proof.
  apply list_elem_of_In. rewrite addToHistory_Permutation. apply list_elem_of_here.
Qed.

Lemma addToHistory_length (clock : Clock) (fs : FormState.t)
    (images : list ImageResult.t) (h : list HistoryEntry.t) :
  length (addToHistory clock fs images h) = S (length h).
Proof. now rewrite addToHistory_Permutation. Qed.

(** ** Items of a batch *)

Lemma initialImages_lookup (now : nat -> Z) (fs : FormState.t) (poses : list string)
    (i : nat) (p : string) :
  poses !! i = Some p ->
  App.initialImages now fs poses !! i
  = Some (ImageResult.mk (Js.of_Z (now i) +:+ "-" +:+ Js.of_nat i) EmptyString p
            (FormState.style fs) (FormState.aspectRatio fs) StLoading None None
            (Some VIdle) None).
Proof. intros H. unfold App.initialImages. now rewrite list_lookup_imap, H. Qed.

Lemma settle_terminal (answers : nat -> Answer Response.t) (i : nat) (img : ImageResult.t) :
  terminal (ImageResult.status (settle answers i img)).
Proof. unfold settle, terminal. destruct (generateImage (answers i)); cbn; auto. Qed.

(** C1. In a batch whose planning gave the poses [pose :: poses], the
    images are requested for every pose, in the order of the poses,
    whatever the earlier requests came to; the item of a pose whose request
    failed ends with status error and the reason [generateImage] threw, the
    item of a pose whose request succeeded ends with status success and the
    image; the run ends with [isLoading] false and one more history entry,
    holding the form state and these final items. *)
Theorem C1_item_failure_does_not_stop_batch (clock : Clock) (now : nat -> Z)
    (answers : nat -> Answer Response.t) (st : App.State)
    (pose : string) (poses : list string) :
  let poseTasks := pose :: poses in
  let fs := App.formState st in
  let run := App.handleGenerate clock now (Resolved (Poses poseTasks)) answers st in
  imageCalls (snd run) = List.map (imageParts fs) poseTasks
  /\ (forall i p, poseTasks !! i = Some p ->
        exists img,
          App.images (fst run) !! i = Some img
          /\ ImageResult.prompt img = p
          /\ match generateImage (answers i) with
             | Throw reason =>
                 ImageResult.status img = StError
                 /\ ImageResult.error img = Some reason
             | Ok imageUrl =>
                 ImageResult.status img = StSuccess
                 /\ ImageResult.src img = imageUrl
             end)
  /\ App.isLoading (fst run) = false
  /\ In (HistoryEntry.mk (nowMs clock) (nowISO clock) fs (App.images (fst run)))
        (App.history (fst run))
  /\ length (App.history (fst run)) = S (length (App.history st)).
Proof.
  intros poseTasks fs run.
  destruct (handleGenerate_planned clock now (Resolved (Poses poseTasks)) answers st
              pose poses eq_refl) as [Hst Hcalls].
  fold fs in Hst, Hcalls. fold poseTasks in Hst, Hcalls. fold run in Hst, Hcalls.
  rewrite Hst. cbn [App.images App.isLoading App.history].
  split; [exact Hcalls|]. split.
  - intros i p Hp. rewrite list_lookup_imap, (initialImages_lookup _ _ _ _ _ Hp).
    eexists. split; [reflexivity|]. unfold settle.
    destruct (generateImage (answers i)); cbn; auto.
  - split; [reflexivity|]. split; [apply addToHistory_In | apply addToHistory_length].
Qed.

(** Scenario A of the specification: both images succeed; two items, in
    the order of the poses, and one history entry. *)
Example scenario_A :
  let run := App.handleGenerate Scenario.clock Scenario.now Scenario.twoPoses
               Scenario.answersA Scenario.mounted in
  List.map (fun img => (ImageResult.prompt img, ImageResult.status img,
                        ImageResult.src img, ImageResult.error img))
           (App.images (fst run))
  = [("pose-a", StSuccess, "data:image/png;base64,AAAA", None);
     ("pose-b", StSuccess, "data:image/png;base64,AAAA", None)]
  /\ List.map HistoryEntry.images (App.history (fst run)) = [App.images (fst run)]
  /\ List.filter (fun e => match e with Sleep _ => true | _ => false end) (snd run) = [].
Proof. vm_compute. repeat split. Qed.

(** Scenario B of the specification: the image of pose-a is refused, the
    image of pose-b succeeds. *)
Example scenario_B :
  let run := App.handleGenerate Scenario.clock Scenario.now Scenario.twoPoses
               Scenario.answersB Scenario.mounted in
  List.map (fun img => (ImageResult.prompt img, ImageResult.status img,
                        ImageResult.src img, ImageResult.error img))
           (App.images (fst run))
  = [("pose-a", StError, EmptyString, Some Scenario.safetyMessage);
     ("pose-b", StSuccess, "data:image/png;base64,BBBB", None)]
  /\ List.map HistoryEntry.images (App.history (fst run)) = [App.images (fst run)]
  /\ length (imageCalls (snd run)) = 2%nat.
Proof. vm_compute. repeat split. Qed.

(** C2. When planning fails or gives no pose, [handleGenerate] creates no
    item, requests no image and shows the failure in [error]; but the
    render at the end of the run still archives the attempt: the history
    gains one entry, with the form state and an empty list of items. *)
Theorem C2_failed_planning_is_archived (clock : Clock) (now : nat -> Z)
    (planning : Answer ParsedJson) (answers : nat -> Answer Response.t)
    (st : App.State) :
  let fs := App.formState st in
  let run := App.handleGenerate clock now planning answers st in
  match planningFailure (generatePoses planning) with
  | Some message =>
      App.images (fst run) = []
      /\ App.error (fst run) = Some ("An unexpected error occurred: " +:+ message)
      /\ imageCalls (snd run) = []
      /\ App.isLoading (fst run) = false
      /\ In (HistoryEntry.mk (nowMs clock) (nowISO clock) fs [])
            (App.history (fst run))
      /\ length (App.history (fst run)) = S (length (App.history st))
  | None => exists pose poses, generatePoses planning = Ok (pose :: poses)
  end.
Proof.
  intros fs run.
  destruct (planningFailure (generatePoses planning)) as [message|] eqn:E.
  - unfold run. rewrite (handleGenerate_not_planned _ _ _ _ _ _ E). cbn.
    repeat split; [apply addToHistory_In | apply addToHistory_length].
  - destruct (generatePoses planning) as [[|p ps]|m]; try discriminate. eauto.
Qed.

(** Scenario C of the specification: planning returns an empty list. *)
Example scenario_C :
  let run := App.handleGenerate Scenario.clock Scenario.now (Resolved (Poses []))
               Scenario.answersA Scenario.mounted in
  App.images (fst run) = []
  /\ App.error (fst run)
     = Some "An unexpected error occurred: The AI failed to generate any poses. Try adjusting the description."
  /\ App.history (fst run)
     = [HistoryEntry.mk (nowMs Scenario.clock) (nowISO Scenario.clock) Scenario.form []].
Proof. vm_compute. repeat split. Qed.

(** C3, as the specification states it, fails: three photos are asked
    for (a count within the bounds of the form), planning answers with two
    poses, and the finished batch has two items. *)
Lemma C3_counterexample :
  let st := Scenario.mountedForThree in
  let run := App.handleGenerate Scenario.clock Scenario.now Scenario.twoPoses
               Scenario.answersA st in
  (1 <= FormState.numberOfImages (App.formState st) <= 10)
  /\ FormState.numberOfImages (App.formState st) = 3
  /\ App.isLoading (fst run) = false
  /\ List.map ImageResult.status (App.images (fst run)) = [StSuccess; StSuccess]
  /\ Z.of_nat (length (App.images (fst run)))
     <> FormState.numberOfImages (App.formState st).
Proof. vm_compute. repeat split; discriminate. Qed.

(** C3, amended.  A finished batch has one item per pose planning
    returned, in the order of the poses, whatever count the form asked
    for; every item is in a terminal state; and no round of the loop adds or
    removes an item. *)
Theorem C3_items_match_planned_poses (clock : Clock) (now : nat -> Z)
    (answers : nat -> Answer Response.t) (st : App.State)
    (pose : string) (poses : list string) :
  let poseTasks := pose :: poses in
  let fs := App.formState st in
  let run := App.handleGenerate clock now (Resolved (Poses poseTasks)) answers st in
  length (App.images (fst run)) = length poseTasks
  /\ List.map ImageResult.prompt (App.images (fst run)) = poseTasks
  /\ Forall (fun img => terminal (ImageResult.status img)) (App.images (fst run))
  /\ App.isLoading (fst run) = false
  /\ (forall index rest s,
         length (App.images
                   (fst (generatePhotos_from fs (App.onSuccessRendered clock)
                           (App.onErrorRendered clock) answers (length poseTasks)
                           index rest s)))
         = length (App.images s)).
Proof.
  intros poseTasks fs run.
  destruct (handleGenerate_planned clock now (Resolved (Poses poseTasks)) answers st
              pose poses eq_refl) as [Hst _].
  fold fs in Hst. fold poseTasks in Hst. fold run in Hst.
  rewrite Hst. cbn [App.images App.isLoading].
  split; [|split; [|split; [|split]]].
  - unfold App.initialImages. now rewrite !length_imap.
  - apply list_eq. intros i. rewrite list_lookup_fmap, list_lookup_imap.
    unfold App.initialImages. rewrite list_lookup_imap.
    destruct (poseTasks !! i) as [p|]; [|reflexivity]. cbn.
    unfold settle. now destruct (generateImage (answers i)).
  - apply List.Forall_forall. intros img Hin.
    apply list_elem_of_In, list_elem_of_lookup in Hin. destruct Hin as [i Hi].
    rewrite list_lookup_imap in Hi.
    destruct (App.initialImages now fs poseTasks !! i) as [img0|]; [|discriminate].
    injection Hi as <-. apply settle_terminal.
  - reflexivity.
  - intros index rest. revert index.
    induction rest as [|p rest IH]; intros index s; [reflexivity|].
    cbn [generatePhotos_from].
    match goal with
    | |- context [generatePhotos_from _ _ _ _ _ ?i rest ?s'] =>
        specialize (IH i s'); destruct (generatePhotos_from _ _ _ _ _ i rest s')
          as [s2 ev]
    end.
    cbn [fst] in IH |- *. rewrite IH.
    unfold App.onSuccessRendered, App.onErrorRendered.
    destruct (generateImage (answers index)); rewrite historyEffect_images;
      unfold App.onSuccess, App.onError, App.setImages, App.updateAt;
      cbn [App.images]; now rewrite length_imap.
Qed.

(** ** Updating the items by id *)

Lemma updateById_lookup (imageId : string) (f : ImageResult.t -> ImageResult.t)
    (images : list ImageResult.t) (i : nat) :
  App.updateById imageId f images !! i
  = (fun img => if String.eqb (ImageResult.id img) imageId then f img else img)
      <$> images !! i.
Proof. unfold App.updateById. apply list_lookup_fmap. Qed.

Lemma updateById_In (imageId : string) (f : ImageResult.t -> ImageResult.t)
    (images : list ImageResult.t) (img : ImageResult.t) :
  In img (App.updateById imageId f images) ->
  exists img0, In img0 images
    /\ img = if String.eqb (ImageResult.id img0) imageId then f img0 else img0.
Proof.
  unfold App.updateById. intros (img0 & <- & H)%in_map_iff. eauto.
Qed.

Lemma updateById_length (imageId : string) (f : ImageResult.t -> ImageResult.t)
    (images : list ImageResult.t) :
  length (App.updateById imageId f images) = length images.
Proof. unfold App.updateById. apply length_map. Qed.

Lemma findById_Some (imageId : string) (images : list ImageResult.t)
    (img : ImageResult.t) :
  App.findById imageId images = Some img ->
  In img images /\ ImageResult.id img = imageId.
Proof.
  unfold App.findById. intros [H1 H2]%List.find_some.
  now apply String.eqb_eq in H2.
Qed.

(** ** [handleRegenerate] *)

Lemma promptForKey_images (m : string) (st : App.State) :
  App.images (App.promptForKey m st) = App.images st.
Proof. unfold App.promptForKey. now destruct (Js.includes _ _). Qed.

Lemma handleRegenerate_settled_images (imageId : string) (outcome : Result string)
    (st : App.State) :
  App.images (App.handleRegenerate_settled imageId outcome st)
  = App.updateById imageId
      (match outcome with
       | Ok imageUrl => ImageResult.succeeded imageUrl
       | Throw message => ImageResult.failed message
       end) (App.images st).
Proof.
  destruct outcome as [u|m]; cbn; [reflexivity | now rewrite promptForKey_images].
Qed.

(** A request that changes the style or the prompt of a known item, with
    the form of the last batch at hand, is the one that goes through. *)
Lemma handleRegenerate_begin_accepted (imageId newStyle newPrompt : string)
    (st : App.State) (lastUsed : FormState.t) (imageToUpdate : ImageResult.t) :
  App.lastUsedFormState st = Some lastUsed ->
  App.findById imageId (App.images st) = Some imageToUpdate ->
  newStyle <> ImageResult.style imageToUpdate
  \/ newPrompt <> ImageResult.prompt imageToUpdate ->
  App.handleRegenerate_begin imageId newStyle newPrompt st
  = (App.setImages (App.updateById imageId (ImageResult.restarted newStyle newPrompt)) st,
     Some (imageParts (FormState.with_style newStyle lastUsed) newPrompt)).
Proof.
  intros Hl Hf Hne. unfold App.handleRegenerate_begin. rewrite Hl, Hf.
  destruct (String.eqb_spec newStyle (ImageResult.style imageToUpdate)) as [Hs|Hs];
    destruct (String.eqb_spec newPrompt (ImageResult.prompt imageToUpdate)) as [Hp|Hp];
    cbn [andb]; try reflexivity.
  destruct Hne; contradiction.
Qed.

(** C7. A regeneration request that goes through (the form of the last
    batch is at hand, the item exists, and the style or the prompt differs
    from the item's) leaves every item of that id with [videoStatus] idle
    and neither [videoSrc] nor [videoError], whatever they were before; the
    call of [regeneratePhoto] is made, and whatever it comes to, these three
    fields stay as they were set. *)
Theorem C7_regeneration_resets_video (imageId newStyle newPrompt : string)
    (st : App.State) (lastUsed : FormState.t) (imageToUpdate : ImageResult.t)
    (outcome : Result string) :
  App.lastUsedFormState st = Some lastUsed ->
  App.findById imageId (App.images st) = Some imageToUpdate ->
  newStyle <> ImageResult.style imageToUpdate
  \/ newPrompt <> ImageResult.prompt imageToUpdate ->
  let begun := App.handleRegenerate_begin imageId newStyle newPrompt st in
  let settled := App.handleRegenerate_settled imageId outcome (fst begun) in
  snd begun <> None
  /\ (exists img, In img (App.images (fst begun)) /\ ImageResult.id img = imageId)
  /\ (forall img, In img (App.images (fst begun)) -> ImageResult.id img = imageId ->
        ImageResult.videoStatus img = Some VIdle
        /\ ImageResult.videoSrc img = None
        /\ ImageResult.videoError img = None)
  /\ (forall img, In img (App.images settled) -> ImageResult.id img = imageId ->
        ImageResult.videoStatus img = Some VIdle
        /\ ImageResult.videoSrc img = None
        /\ ImageResult.videoError img = None).
Proof.
  intros Hl Hf Hne begun settled. subst settled begun.
  rewrite (handleRegenerate_begin_accepted _ _ _ _ _ _ Hl Hf Hne). cbn [fst snd].
  assert (Hbegun : forall img,
             In img (App.updateById imageId (ImageResult.restarted newStyle newPrompt)
                       (App.images st)) ->
             ImageResult.id img = imageId ->
             ImageResult.videoStatus img = Some VIdle
             /\ ImageResult.videoSrc img = None /\ ImageResult.videoError img = None).
  { intros img (img0 & _ & ->)%updateById_In.
    destruct (String.eqb_spec (ImageResult.id img0) imageId) as [E|E].
    - now cbn.
    - intros Hid. contradiction. }
  split; [discriminate|]. split; [|split].
  - destruct (findById_Some _ _ _ Hf) as [Hin Hid].
    exists (ImageResult.restarted newStyle newPrompt imageToUpdate). split; [|exact Hid].
    unfold App.setImages, App.updateById; cbn [App.images]. apply in_map_iff.
    exists imageToUpdate. split; [|exact Hin].
    rewrite <- Hid. now rewrite String.eqb_refl.
  - exact Hbegun.
  - intros img Hin Hid.
    assert (Hin' : exists img1,
               In img1 (App.updateById imageId (ImageResult.restarted newStyle newPrompt)
                          (App.images st))
               /\ ImageResult.id img1 = imageId
               /\ ImageResult.videoStatus img = ImageResult.videoStatus img1
               /\ ImageResult.videoSrc img = ImageResult.videoSrc img1
               /\ ImageResult.videoError img = ImageResult.videoError img1).
    { rewrite handleRegenerate_settled_images in Hin. cbn [App.setImages App.images] in Hin.
      apply updateById_In in Hin as (img1 & Hin1 & Heq). exists img1.
      destruct (String.eqb_spec (ImageResult.id img1) imageId) as [E|E];
        subst img; [|contradiction].
      destruct outcome; cbn; auto. }
    destruct Hin' as (img1 & Hin1 & Hid1 & -> & -> & ->). now apply Hbegun.
Qed.

(** C10. When the image of a regeneration fails, nothing of the request
    is undone: every item of that id keeps the new style and the new
    prompt, its video fields stay reset (idle, no video, no video error),
    its [src] is still the photo it had before the request, and its status
    is error with the reason [generateImage] threw; the other items are
    untouched. *)
Theorem C10_failed_regeneration_is_not_rolled_back
    (imageId newStyle newPrompt : string) (st : App.State) (lastUsed : FormState.t)
    (imageToUpdate : ImageResult.t) (answer : Answer Response.t) (reason : string) :
  App.lastUsedFormState st = Some lastUsed ->
  App.findById imageId (App.images st) = Some imageToUpdate ->
  newStyle <> ImageResult.style imageToUpdate
  \/ newPrompt <> ImageResult.prompt imageToUpdate ->
  generateImage answer = Throw reason ->
  let begun := App.handleRegenerate_begin imageId newStyle newPrompt st in
  let settled := App.handleRegenerate_settled imageId (generateImage answer) (fst begun) in
  snd begun = Some (imageParts (FormState.with_style newStyle lastUsed) newPrompt)
  /\ (forall i img0, App.images st !! i = Some img0 ->
        App.images settled !! i
        = Some (if String.eqb (ImageResult.id img0) imageId
                then ImageResult.mk (ImageResult.id img0) (ImageResult.src img0)
                       newPrompt newStyle (ImageResult.aspectRatio img0)
                       StError (Some reason) None (Some VIdle) None
                else img0))
  /\ length (App.images settled) = length (App.images st)
  /\ App.error settled = Some ("Failed to regenerate image: " +:+ reason)
  /\ App.lastUsedFormState settled = Some lastUsed.
Proof.
  intros Hl Hf Hne Hthrow begun settled. subst settled begun.
  rewrite (handleRegenerate_begin_accepted _ _ _ _ _ _ Hl Hf Hne), Hthrow.
  cbn [fst snd]. split; [reflexivity|]. split; [|split; [|split]].
  - intros i img0 Hi. rewrite handleRegenerate_settled_images.
    cbn [App.setImages App.images]. rewrite !updateById_lookup, Hi. cbn.
    destruct (String.eqb_spec (ImageResult.id img0) imageId) as [E|E]; cbn.
    + rewrite <- E at 1. now rewrite String.eqb_refl.
    + now apply String.eqb_neq in E as ->.
  - rewrite handleRegenerate_settled_images. cbn [App.setImages App.images].
    now rewrite !updateById_length.
  - cbn. reflexivity.
  - cbn. unfold App.promptForKey. destruct (Js.includes _ _); cbn; exact Hl.
Qed.

(** ** [handleVideoAction] *)

Lemma handleVideoAction_begin_started (imageId aspectRatio : string) (st : App.State)
    (img : ImageResult.t) :
  App.findById imageId (App.images st) = Some img ->
  videoJobStarted imageId aspectRatio st img
    (App.setError None (App.setImages (App.updateById imageId ImageResult.videoStarted) st),
     Some (App.mkVideoCall (ImageResult.src img) aspectRatio)).
Proof.
  intros Hf. unfold videoJobStarted. cbn [fst snd App.setError App.setImages App.images].
  split; [reflexivity|]. split; [reflexivity|]. split.
  - destruct (findById_Some _ _ _ Hf) as [Hin Hid].
    exists (ImageResult.videoStarted img). split; [|exact Hid].
    unfold App.updateById. apply in_map_iff. exists img. split; [|exact Hin].
    rewrite <- Hid. now rewrite String.eqb_refl.
  - intros item (img0 & _ & ->)%updateById_In.
    destruct (String.eqb_spec (ImageResult.id img0) imageId) as [E|E].
    + now cbn.
    + intros Hid. contradiction.
Qed.

(** C4, amended.  A video request for a known item is decided by the
    photo status and the video status of the item.  When the photo has not
    succeeded the request does nothing.  When it has: while the video is
    loading the request does nothing, so no second call is made; after an
    error, or when no video was asked for yet, the request goes through, the
    item is loading again and a new call is made; after a success the video
    the item has is shown, the item stays as it is and no call is made. *)
Theorem C4_video_request_dispatch (imageId aspectRatio : string) (st : App.State)
    (img : ImageResult.t) :
  App.findById imageId (App.images st) = Some img ->
  let begun := App.handleVideoAction_begin imageId aspectRatio st in
  match ImageResult.status img with
  | StSuccess =>
      match ImageResult.videoStatus img with
      | Some VLoading => begun = (st, None)
      | Some VSuccess =>
          if present (ImageResult.videoSrc img)
          then videoShown st img begun
          else videoJobStarted imageId aspectRatio st img begun
      | Some VError | Some VIdle | None =>
          videoJobStarted imageId aspectRatio st img begun
      end
  | StLoading | StError => begun = (st, None)
  end.
Proof.
  intros Hf begun. subst begun. unfold App.handleVideoAction_begin. rewrite Hf.
  destruct (ImageResult.status img); cbn [Status_eqb negb]; try reflexivity.
  destruct (ImageResult.videoStatus img) as [[| | |]|]; cbn [App.VideoStatus_is andb];
    try (now apply handleVideoAction_begin_started).
  - reflexivity.
  - destruct (present (ImageResult.videoSrc img)).
    + unfold videoShown. cbn. auto.
    + now apply handleVideoAction_begin_started.
Qed.

(** C4, as the specification states it, fails: the first photo of
    scenario A has a finished video; a new video request for it makes no
    call and leaves its video state at success. *)
Lemma C4_counterexample :
  let st := Scenario.afterVideo in
  let begun := App.handleVideoAction_begin Scenario.id0 "9:16" st in
  List.map (fun img => (ImageResult.id img, ImageResult.status img,
                        ImageResult.videoStatus img, ImageResult.videoSrc img))
           (App.images st)
  = [(Scenario.id0, StSuccess, Some VSuccess, Some Scenario.video);
     ("1699999990000-1", StSuccess, Some VIdle, None)]
  /\ snd begun = None
  /\ App.images (fst begun) = App.images st.
Proof. vm_compute. repeat split. Qed.

(** C6, amended.  A video request for an item that is unknown or whose
    photo has not succeeded is dropped without a trace: no call is made and
    the state of the component, its [error] included, is what it was. *)
Theorem C6_video_request_without_photo_is_dropped (imageId aspectRatio : string)
    (st : App.State) :
  (forall img, App.findById imageId (App.images st) = Some img ->
               ImageResult.status img <> StSuccess) ->
  App.handleVideoAction_begin imageId aspectRatio st = (st, None).
Proof.
  intros H. unfold App.handleVideoAction_begin.
  destruct (App.findById imageId (App.images st)) as [img|]; [|reflexivity].
  specialize (H img eq_refl). destruct (ImageResult.status img); try reflexivity.
  contradiction.
Qed.

(** C6, as the specification states it, fails: the first item of
    scenario B is in error; a video request for it makes no call, and
    nothing tells the caller: the state is the same, with no error set. *)
Lemma C6_counterexample :
  let st := Scenario.afterB in
  let begun := App.handleVideoAction_begin Scenario.id0 "9:16" st in
  List.map (fun img => (ImageResult.id img, ImageResult.status img)) (App.images st)
  = [(Scenario.id0, StError); ("1699999990000-1", StSuccess)]
  /\ snd begun = None
  /\ fst begun = st
  /\ App.error (fst begun) = None.
Proof. vm_compute. repeat split. Qed.

(** ** The running application: steps as functions *)

Lemma step_generateBegin (clock : Clock) (w : World.t) :
  World.step w (World.generateBegin clock w).
Proof. apply World.GenerateBegin. Qed.

Lemma step_afterPoses (clock : Clock) (now : nat -> Z) (planning : Answer ParsedJson)
    (fs : FormState.t) (after : list World.Pending) (w : World.t) :
  World.pending w = World.AwaitPoses fs :: after ->
  World.step w (World.afterPoses clock now planning fs after w).
Proof.
  intros H. unfold World.afterPoses.
  eapply (World.PosesSettled clock now planning fs [] after w).
  - exact H.
  - apply surjective_pairing.
Qed.

Lemma step_afterImage (clock : Clock) (answer : Answer Response.t) (fs : FormState.t)
    (poseTasks : list string) (index : nat) (after : list World.Pending) (w : World.t) :
  World.pending w = World.AwaitImage fs poseTasks index :: after ->
  World.step w (World.afterImage clock answer fs poseTasks index after w).
Proof.
  intros H. unfold World.afterImage.
  eapply (World.ImageSettled clock answer fs poseTasks index [] after w).
  - exact H.
  - apply surjective_pairing.
Qed.

Lemma step_regenerate (clock : Clock) (imageId newStyle newPrompt : string) (w : World.t) :
  World.step w (World.regenerate clock imageId newStyle newPrompt w).
Proof.
  unfold World.regenerate.
  apply (World.Regenerate clock imageId newStyle newPrompt w). apply surjective_pairing.
Qed.

Lemma step_afterRegenerate (clock : Clock) (answer : Answer Response.t)
    (imageId : string) (after : list World.Pending) (w : World.t) :
  World.pending w = World.AwaitRegenerate imageId :: after ->
  World.step w (World.afterRegenerate clock answer imageId after w).
Proof.
  intros H. unfold World.afterRegenerate.
  apply (World.RegenerateSettled clock answer imageId [] after w). exact H.
Qed.

(** One photo is generated and then regenerated in another style. *)
Lemma scenario_steps_04 : World.steps Scenario.w0 Scenario.w4.
Proof.
  eapply World.steps_step; [|apply step_regenerate].
  eapply World.steps_step;
    [|apply step_afterImage; vm_compute; reflexivity].
  eapply World.steps_step;
    [|apply step_afterPoses; vm_compute; reflexivity].
  eapply World.steps_step; [|apply step_generateBegin].
  apply World.steps_refl.
Qed.

Lemma scenario_steps_05 : World.steps Scenario.w0 Scenario.w5.
Proof.
  eapply World.steps_step; [exact scenario_steps_04 | apply step_regenerate].
Qed.

Lemma scenario_steps_refused : World.steps Scenario.w0 Scenario.w5_refused.
Proof.
  eapply World.steps_step; [exact scenario_steps_04|].
  apply step_afterRegenerate. vm_compute. reflexivity.
Qed.

(** C5, amended.  [handleRegenerate] knows no conflict: a request is
    dropped only when the form of the last batch is missing (and then the
    error says so), when the item is unknown, or when neither the style nor
    the prompt changes (the state stays as it is); a request that goes
    through is one for a known item with a changed style or prompt. *)
Theorem C5_regeneration_knows_no_conflict (imageId newStyle newPrompt : string)
    (st : App.State) :
  let begun := App.handleRegenerate_begin imageId newStyle newPrompt st in
  match snd begun with
  | Some parts =>
      exists lastUsed img,
        App.lastUsedFormState st = Some lastUsed
        /\ App.findById imageId (App.images st) = Some img
        /\ (newStyle <> ImageResult.style img \/ newPrompt <> ImageResult.prompt img)
        /\ parts = imageParts (FormState.with_style newStyle lastUsed) newPrompt
  | None =>
      (App.lastUsedFormState st = None
       /\ fst begun
          = App.setError (Some "Cannot regenerate. Original form data not found.") st)
      \/ (fst begun = st
          /\ (App.findById imageId (App.images st) = None
              \/ exists img,
                   App.findById imageId (App.images st) = Some img
                   /\ newStyle = ImageResult.style img
                   /\ newPrompt = ImageResult.prompt img))
  end.
Proof.
  intros begun. subst begun. unfold App.handleRegenerate_begin.
  destruct (App.lastUsedFormState st) as [lastUsed|]; [|cbn; auto].
  destruct (App.findById imageId (App.images st)) as [img|]; [|cbn; auto].
  destruct (String.eqb_spec newStyle (ImageResult.style img)) as [Hs|Hs];
    destruct (String.eqb_spec newPrompt (ImageResult.prompt img)) as [Hp|Hp];
    cbn [andb fst snd]; eauto 10.
Qed.

(** C5, as the specification states it, fails: the photo is being
    regenerated (its status is loading, one call is in flight) when a second
    request with another style arrives; the request is not refused, no error
    is set, and two regenerations of the item are in flight. *)
Lemma C5_counterexample :
  World.steps Scenario.w0 Scenario.w5
  /\ World.step Scenario.w4 Scenario.w5
  /\ List.map (fun img => (ImageResult.id img, ImageResult.status img))
       (App.images (World.app Scenario.w4))
     = [(Scenario.id0, StLoading)]
  /\ World.regenerationsInFlight Scenario.id0 Scenario.w4 = 1%nat
  /\ World.regenerationsInFlight Scenario.id0 Scenario.w5 = 2%nat
  /\ App.error (World.app Scenario.w5) = None.
Proof.
  split; [exact scenario_steps_05|]. split; [apply step_regenerate|].
  vm_compute. repeat split.
Qed.

(** ** The photo fields in every reachable state *)

Lemma photoFieldsAgree_succeeded (u : string) (img : ImageResult.t) :
  Js.truthy u = true -> photoFieldsAgree (ImageResult.succeeded u img).
Proof. intros H. split; cbn; [now intros _ | discriminate]. Qed.

Lemma photoFieldsAgree_failed (m : string) (img : ImageResult.t) :
  photoFieldsAgree (ImageResult.failed m img).
Proof. split; cbn; [discriminate | intros _; unfold photoErrorPresent; cbn; discriminate]. Qed.

Lemma photoFieldsAgree_loading (img : ImageResult.t) :
  ImageResult.status img = StLoading -> photoFieldsAgree img.
Proof. intros H. split; rewrite H; discriminate. Qed.

(** A change of the video fields alone leaves the photo fields as they are. *)
Lemma photoFieldsAgree_same_photo (img img' : ImageResult.t) :
  ImageResult.status img' = ImageResult.status img ->
  ImageResult.src img' = ImageResult.src img ->
  ImageResult.error img' = ImageResult.error img ->
  photoFieldsAgree img -> photoFieldsAgree img'.
Proof.
  unfold photoFieldsAgree, photoResultPresent, photoErrorPresent.
  now intros -> -> ->.
Qed.

Lemma settled_photo_agrees (answer : Answer Response.t) (img : ImageResult.t) :
  photoFieldsAgree
    (match generateImage answer with
     | Ok imageUrl => ImageResult.succeeded imageUrl
     | Throw message => ImageResult.failed message
     end img).
Proof.
  destruct (generateImage answer) as [u|m] eqn:E.
  - apply photoFieldsAgree_succeeded. eapply generateImage_url_truthy, E.
  - apply photoFieldsAgree_failed.
Qed.

Lemma Forall_updateById (P : ImageResult.t -> Prop) (imageId : string)
    (f : ImageResult.t -> ImageResult.t) (images : list ImageResult.t) :
  (forall img, P img -> P (f img)) ->
  Forall P images -> Forall P (App.updateById imageId f images).
Proof.
  intros Hf H. unfold App.updateById. induction H as [|img l Hx Hl IH]; cbn.
  - constructor.
  - constructor; [|exact IH]. destruct (String.eqb _ _); auto.
Qed.

Lemma Forall_updateAt (P : ImageResult.t -> Prop) (index : nat)
    (f : ImageResult.t -> ImageResult.t) (images : list ImageResult.t) :
  (forall img, P img -> P (f img)) ->
  Forall P images -> Forall P (App.updateAt index f images).
Proof.
  intros Hf H. apply List.Forall_forall. intros img Hin.
  apply list_elem_of_In, list_elem_of_lookup in Hin. destruct Hin as [i Hi].
  rewrite updateAt_lookup in Hi.
  destruct (images !! i) as [img0|] eqn:E; [|discriminate]. cbn in Hi.
  injection Hi as <-.
  assert (P img0).
  { rewrite List.Forall_forall in H. apply H, list_elem_of_In, list_elem_of_lookup.
    eauto. }
  destruct (Nat.eqb i index); auto.
Qed.

Lemma stateOk_same (st st' : App.State) :
  App.images st' = App.images st -> App.history st' = App.history st ->
  stateOk st -> stateOk st'.
Proof. unfold stateOk. now intros -> ->. Qed.

Lemma stateOk_setImages (f : list ImageResult.t -> list ImageResult.t) (st : App.State) :
  Forall photoFieldsAgree (f (App.images st)) -> stateOk st ->
  stateOk (App.setImages f st).
Proof. intros H [_ Hh]. split; [exact H | exact Hh]. Qed.

Lemma stateOk_historyEffect (clock : Clock) (st : App.State) :
  stateOk st -> stateOk (App.historyEffect clock st).
Proof.
  intros [Hi Hh]. unfold App.historyEffect.
  destruct (App.prevIsLoading st && negb (App.isLoading st));
    [destruct (App.lastUsedFormState st) as [fs|]|]; split; try assumption.
  change (Forall (fun entry => Forall photoFieldsAgree (HistoryEntry.images entry))
            (addToHistory clock fs (App.images st) (App.history st))).
  apply List.Forall_forall. intros e He.
  apply list_elem_of_In in He. rewrite addToHistory_Permutation in He.
  apply elem_of_cons in He as [->|He]; [exact Hi|].
  rewrite List.Forall_forall in Hh. now apply Hh, list_elem_of_In.
Qed.

Lemma stateOk_handleGenerate_begin (st : App.State) :
  stateOk st -> stateOk (App.handleGenerate_begin st).
Proof. intros [_ Hh]. split; [constructor | exact Hh]. Qed.

Lemma initialImages_agree (now : nat -> Z) (fs : FormState.t) (poses : list string) :
  Forall photoFieldsAgree (App.initialImages now fs poses).
Proof.
  apply List.Forall_forall. intros img Hin.
  apply list_elem_of_In in Hin. unfold App.initialImages in Hin.
  apply elem_of_lookup_imap_1 in Hin as (i & p & -> & _).
  now apply photoFieldsAgree_loading.
Qed.

Lemma stateOk_handleGenerate_catch (m : string) (st : App.State) :
  stateOk st -> stateOk (App.handleGenerate_catch m st).
Proof.
  intros H. unfold App.handleGenerate_catch. apply stateOk_setImages.
  - cbn. rewrite promptForKey_images.
    destruct (App.images st) as [|img l]; [constructor|].
    apply List.Forall_forall. intros x (x0 & <- & _)%in_map_iff.
    apply photoFieldsAgree_failed.
  - eapply stateOk_same; [| |exact H]; cbn; unfold App.promptForKey;
      now destruct (Js.includes _ _).
Qed.

Lemma stateOk_posesSettled (now : nat -> Z) (fs : FormState.t)
    (planning : Answer ParsedJson) (st : App.State) :
  stateOk st -> stateOk (fst (World.posesSettled now fs planning st)).
Proof.
  intros H. unfold World.posesSettled.
  destruct (generatePoses planning) as [[|p ps]|m]; cbn [fst].
  - eapply stateOk_same; [| |apply stateOk_handleGenerate_catch, H]; reflexivity.
  - apply stateOk_setImages; [apply initialImages_agree | exact H].
  - eapply stateOk_same; [| |apply stateOk_handleGenerate_catch, H]; reflexivity.
Qed.

Lemma stateOk_imageSettled (fs : FormState.t) (poseTasks : list string) (index : nat)
    (answer : Answer Response.t) (st : App.State) :
  stateOk st -> stateOk (fst (World.imageSettled fs poseTasks index answer st)).
Proof.
  intros H. unfold World.imageSettled.
  assert (Hs : stateOk (World.imageCallback index answer st)).
  { unfold World.imageCallback. destruct (generateImage answer) as [u|m] eqn:E.
    - apply stateOk_setImages; [|exact H]. apply Forall_updateAt; [|apply H].
      intros img _. apply photoFieldsAgree_succeeded. eapply generateImage_url_truthy, E.
    - apply stateOk_setImages; [|exact H]. apply Forall_updateAt; [|apply H].
      intros img _. apply photoFieldsAgree_failed. }
  destruct (Nat.ltb _ _); cbn [fst]; [exact Hs|].
  eapply stateOk_same; [| |exact Hs]; reflexivity.
Qed.

Lemma stateOk_handleRegenerate_begin (imageId newStyle newPrompt : string)
    (st : App.State) :
  stateOk st -> stateOk (fst (App.handleRegenerate_begin imageId newStyle newPrompt st)).
Proof.
  intros H. unfold App.handleRegenerate_begin.
  destruct (App.lastUsedFormState st) as [lastUsed|]; [|exact H].
  destruct (App.findById imageId (App.images st)) as [img|]; [|exact H].
  destruct (_ && _); [exact H|]. cbn [fst].
  apply stateOk_setImages; [|exact H]. apply Forall_updateById; [|apply H].
  intros x _. now apply photoFieldsAgree_loading.
Qed.

Lemma stateOk_handleRegenerate_settled (imageId : string) (answer : Answer Response.t)
    (st : App.State) :
  stateOk st ->
  stateOk (App.handleRegenerate_settled imageId (generateImage answer) st).
Proof.
  intros H. split.
  - rewrite handleRegenerate_settled_images. apply Forall_updateById; [|apply H].
    intros img _. apply settled_photo_agrees.
  - replace (App.history (App.handleRegenerate_settled imageId (generateImage answer) st))
      with (App.history st); [apply H|].
    destruct (generateImage answer); cbn; [reflexivity|].
    unfold App.promptForKey. now destruct (Js.includes _ _).
Qed.

Lemma stateOk_handleVideoAction_begin (imageId aspectRatio : string) (st : App.State) :
  stateOk st -> stateOk (fst (App.handleVideoAction_begin imageId aspectRatio st)).
Proof.
  intros H. unfold App.handleVideoAction_begin.
  destruct (App.findById imageId (App.images st)) as [img|]; [|exact H].
  destruct (negb _); [exact H|].
  destruct (_ && _); [exact H|].
  destruct (App.VideoStatus_is _ _); [exact H|]. cbn [fst].
  eapply stateOk_same; [reflexivity|reflexivity|].
  apply stateOk_setImages; [|exact H]. apply Forall_updateById; [|apply H].
  intros x. now apply photoFieldsAgree_same_photo.
Qed.

Lemma stateOk_handleVideoAction_settled (imageId : string) (call : App.VideoCall)
    (outcome : Result string) (st : App.State) :
  stateOk st -> stateOk (App.handleVideoAction_settled imageId call outcome st).
Proof.
  intros H. destruct outcome as [v|m]; cbn.
  - eapply stateOk_same; [reflexivity|reflexivity|].
    apply stateOk_setImages; [|exact H]. apply Forall_updateById; [|apply H].
    intros x. now apply photoFieldsAgree_same_photo.
  - apply stateOk_setImages.
    + cbn. rewrite promptForKey_images. apply Forall_updateById; [|apply H].
      intros x. now apply photoFieldsAgree_same_photo.
    + eapply stateOk_same; [| |exact H]; cbn; unfold App.promptForKey;
        now destruct (Js.includes _ _).
Qed.

Lemma stateOk_handleViewHistoryItem (entry : HistoryEntry.t) (st : App.State) :
  In entry (App.history st) -> stateOk st ->
  stateOk (App.handleViewHistoryItem entry st).
Proof.
  intros Hin [_ Hh]. split; cbn; [|exact Hh].
  rewrite List.Forall_forall in Hh. now apply Hh.
Qed.

(** Every step of the running application keeps the photo fields in
    agreement with the photo status. *)
Lemma stateOk_handleStepImage (offset : nat -> nat -> nat) (st : App.State) :
  stateOk st -> stateOk (App.handleStepImage offset st).
Proof.
  intros H. unfold App.handleStepImage.
  destruct (App.viewingImageIndex st); [|exact H].
  destruct (Nat.ltb _ _); [|exact H].
  destruct (_ !! _); exact H.
Qed.

Lemma stateOk_removeFromHistory (id : Z) (st : App.State) :
  stateOk st -> stateOk (App.setHistory (removeFromHistory id) st).
Proof.
  intros [Hi Hh]. split; [exact Hi|]. cbn.
  apply List.Forall_forall. intros e He. unfold removeFromHistory in He.
  apply list_elem_of_In in He. rewrite saveHistory_Permutation in He.
  apply list_elem_of_In, filter_In in He as [He _].
  rewrite List.Forall_forall in Hh. now apply Hh.
Qed.

(** Every step of the running application keeps the photo fields in
    agreement with the photo status. *)
Lemma step_stateOk (w w' : World.t) :
  World.step w w' -> stateOk (World.app w) -> stateOk (World.app w').
Proof.
  intros Hstep H.
  destruct Hstep; cbn [World.app];
    try (apply stateOk_historyEffect;
         try (eapply stateOk_same; [| |exact H]; reflexivity)).
  - now apply stateOk_handleGenerate_begin.
  - match goal with
    | E : World.posesSettled _ _ _ _ = (?s, _) |- _ =>
        change s with (fst (s, next)); rewrite <- E
    end. now apply stateOk_posesSettled.
  - match goal with
    | E : World.imageSettled _ _ _ _ _ = (?s, _) |- _ =>
        change s with (fst (s, next)); rewrite <- E
    end. now apply stateOk_imageSettled.
  - match goal with
    | E : App.handleRegenerate_begin _ _ _ _ = (?s, ?c) |- _ =>
        change s with (fst (s, c)); rewrite <- E
    end. now apply stateOk_handleRegenerate_begin.
  - now apply stateOk_handleRegenerate_settled.
  - match goal with
    | E : App.handleVideoAction_begin _ _ _ = (?s, ?c) |- _ =>
        change s with (fst (s, c)); rewrite <- E
    end. now apply stateOk_handleVideoAction_begin.
  - now apply stateOk_handleVideoAction_settled.
  - now apply stateOk_handleViewHistoryItem.
  - match goal with
    | E : App.handleGenerateDescription_begin _ = _ |- _ =>
        unfold App.handleGenerateDescription_begin in E;
        destruct (FormState.productImage _); injection E as <- <-
    end; [|exact H].
    eapply stateOk_same; [| |exact H]; reflexivity.
  - eapply stateOk_same; [| |exact H];
      destruct (generateDescription answer); cbn; try reflexivity;
      unfold App.promptForKey; now destruct (Js.includes _ _).
  - now apply stateOk_handleStepImage.
  - now apply stateOk_handleStepImage.
  - now apply stateOk_removeFromHistory.
  - split; [apply H | constructor].
  - split; [constructor | apply H].
Qed.

Lemma steps_stateOk (w w' : World.t) :
  World.steps w w' -> stateOk (World.app w) -> stateOk (World.app w').
Proof.
  induction 1 as [|w1 w2 w3 _ IH Hstep]; intros H; [exact H|].
  eapply step_stateOk; [exact Hstep | now apply IH].
Qed.

(** C8, amended.  In every state the application reaches from its mount
    (with a stored history whose items are in order), whatever the remote
    answers and however the handlers interleave, every item whose status is
    success has a photo and every item whose status is error has an error
    message; and every further step keeps it so.  The converse does not
    hold: a photo or a message may be left over from an earlier outcome. *)
Theorem C8_photo_fields_agree_with_status (hasApiKey : bool)
    (storedHistory : list HistoryEntry.t) (w : World.t) :
  Forall (fun entry => Forall photoFieldsAgree (HistoryEntry.images entry)) storedHistory ->
  World.steps (World.mk (App.initial hasApiKey storedHistory) []) w ->
  Forall photoFieldsAgree (App.images (World.app w))
  /\ (forall w', World.step w w' -> Forall photoFieldsAgree (App.images (World.app w'))).
Proof.
  intros Hh Hsteps.
  assert (Hw : stateOk (World.app w)).
  { eapply steps_stateOk; [exact Hsteps|]. split; [constructor | exact Hh]. }
  split; [apply Hw|]. intros w' Hstep. now apply (step_stateOk w w').
Qed.

(** C8 at the end of the history above: the refused regeneration. *)
Lemma C8_witness :
  Forall photoFieldsAgree (App.images (World.app Scenario.w5_refused))
  /\ (forall w', World.step Scenario.w5_refused w' ->
                 Forall photoFieldsAgree (App.images (World.app w'))).
Proof.
  apply (C8_photo_fields_agree_with_status true [] Scenario.w5_refused).
  - constructor.
  - exact scenario_steps_refused.
Defined.

(** C8, as the specification states it, fails: a photo is generated and
    then regenerated in another style; the image of the regeneration is
    refused.  The item is then in error, with the message of the refusal
    and, still, the photo it had. *)
Lemma C8_counterexample :
  World.steps Scenario.w0 Scenario.w5_refused
  /\ List.map (fun img => (ImageResult.id img, ImageResult.status img,
                           ImageResult.src img, ImageResult.error img))
       (App.images (World.app Scenario.w5_refused))
     = [(Scenario.id0, StError, "data:image/png;base64,AAAA",
         Some Scenario.safetyMessage)]
  /\ (forall img, In img (App.images (World.app Scenario.w5_refused)) ->
                  ~ photoFieldsExclusive img).
Proof.
  split; [exact scenario_steps_refused|]. split; [vm_compute; reflexivity|].
  intros img Hin. vm_compute in Hin. destruct Hin as [<-|[]].
  intros [Hex _]. apply Hex. split; [reflexivity | discriminate].
Qed.

(** ** The theorems at concrete inputs *)

(** C4 for a photo whose video failed: the request goes through. *)
Lemma C4_witness :
  videoJobStarted Scenario.id0 "9:16" Scenario.afterVideoFailed
    Scenario.photoA_videoFailed
    (App.handleVideoAction_begin Scenario.id0 "9:16" Scenario.afterVideoFailed).
Proof.
  apply (C4_video_request_dispatch Scenario.id0 "9:16" Scenario.afterVideoFailed
           Scenario.photoA_videoFailed). vm_compute. reflexivity.
Defined.

(** C6 for the refused item of scenario B. *)
Lemma C6_witness :
  App.handleVideoAction_begin Scenario.id0 "9:16" Scenario.afterB
  = (Scenario.afterB, None).
Proof.
  apply (C6_video_request_without_photo_is_dropped Scenario.id0 "9:16" Scenario.afterB).
  intros img H. vm_compute in H. injection H as <-. discriminate.
Defined.

(** C7 for a photo that has a finished video. *)
Lemma C7_witness :
  let begun :=
    App.handleRegenerate_begin Scenario.id0 "cinematic" "pose-a" Scenario.afterVideo in
  let settled :=
    App.handleRegenerate_settled Scenario.id0 (Ok "data:image/png;base64,CCCC")
      (fst begun) in
  snd begun <> None
  /\ (exists img, In img (App.images (fst begun)) /\ ImageResult.id img = Scenario.id0)
  /\ (forall img, In img (App.images (fst begun)) ->
        ImageResult.id img = Scenario.id0 ->
        ImageResult.videoStatus img = Some VIdle
        /\ ImageResult.videoSrc img = None
        /\ ImageResult.videoError img = None)
  /\ (forall img, In img (App.images settled) -> ImageResult.id img = Scenario.id0 ->
        ImageResult.videoStatus img = Some VIdle
        /\ ImageResult.videoSrc img = None
        /\ ImageResult.videoError img = None).
Proof.
  apply (C7_regeneration_resets_video Scenario.id0 "cinematic" "pose-a"
           Scenario.afterVideo Scenario.form Scenario.photoA_video
           (Ok "data:image/png;base64,CCCC")).
  - vm_compute. reflexivity.
  - vm_compute. reflexivity.
  - left. vm_compute. discriminate.
Defined.

(** C10 for the first photo of scenario A, regenerated with a new style
    and a new prompt, the image being refused. *)
Lemma C10_witness :
  let begun :=
    App.handleRegenerate_begin Scenario.id0 "cinematic" "a new pose" Scenario.afterA in
  let settled :=
    App.handleRegenerate_settled Scenario.id0
      (generateImage (Resolved Scenario.safetyResponse)) (fst begun) in
  snd begun
  = Some (imageParts (FormState.with_style "cinematic" Scenario.form) "a new pose")
  /\ (forall i img0, App.images Scenario.afterA !! i = Some img0 ->
        App.images settled !! i
        = Some (if String.eqb (ImageResult.id img0) Scenario.id0
                then ImageResult.mk (ImageResult.id img0) (ImageResult.src img0)
                       "a new pose" "cinematic" (ImageResult.aspectRatio img0)
                       StError (Some Scenario.safetyMessage) None (Some VIdle) None
                else img0))
  /\ length (App.images settled) = length (App.images Scenario.afterA)
  /\ App.error settled
     = Some ("Failed to regenerate image: " +:+ Scenario.safetyMessage)
  /\ App.lastUsedFormState settled = Some Scenario.form.
Proof.
  apply (C10_failed_regeneration_is_not_rolled_back Scenario.id0 "cinematic" "a new pose"
           Scenario.afterA Scenario.form Scenario.photoA
           (Resolved Scenario.safetyResponse) Scenario.safetyMessage).
  - vm_compute. reflexivity.
  - vm_compute. reflexivity.
  - left. vm_compute. discriminate.
  - vm_compute. reflexivity.
Defined.

(** ** A run of [handleGenerate] is a path of the running application *)

Lemma steps_trans (w1 w2 w3 : World.t) :
  World.steps w1 w2 -> World.steps w2 w3 -> World.steps w1 w3.
Proof.
  intros H12 H23. induction H23 as [|w2 w3 w4 _ IH Hstep]; [exact H12|].
  eapply World.steps_step; [now apply IH | exact Hstep].
Qed.

Lemma round_running (clock : Clock) (answers : nat -> Answer Response.t) (index : nat)
    (st : App.State) :
  App.isLoading st = true -> App.prevIsLoading st = true ->
  let st' := match generateImage (answers index) with
             | Ok imageUrl => App.onSuccessRendered clock index imageUrl st
             | Throw message =>
                 App.onErrorRendered clock index
                   (Js.or_else message "An unknown error occurred.") st
             end in
  App.isLoading st' = true /\ App.prevIsLoading st' = true
  /\ st' = World.imageCallback index (answers index) st.
Proof.
  intros Hl Hp. unfold App.onSuccessRendered, App.onErrorRendered, World.imageCallback.
  destruct (generateImage (answers index)); cbn zeta;
    rewrite historyEffect_running by assumption; auto.
Qed.

Lemma generatePhotos_from_cons {S : Type} (fs : FormState.t)
    (onSuccess onError : nat -> string -> S -> S) (answers : nat -> Answer Response.t)
    (total index : nat) (pose : string) (rest : list string) (s : S) :
  fst (generatePhotos_from fs onSuccess onError answers total index (pose :: rest) s)
  = fst (generatePhotos_from fs onSuccess onError answers total (Datatypes.S index) rest
           match generateImage (answers index) with
           | Ok imageUrl => onSuccess index imageUrl s
           | Throw message =>
               onError index (Js.or_else message "An unknown error occurred.") s
           end).
Proof.
  cbn [generatePhotos_from]. now destruct (generatePhotos_from _ _ _ _ _ _ _ _).
Qed.

Lemma step_image_last (clock : Clock) (answer : Answer Response.t) (fs : FormState.t)
    (poseTasks : list string) (index : nat) (pend : list World.Pending)
    (st : App.State) :
  Nat.ltb (S index) (length poseTasks) = false ->
  World.step
    (World.mk st (World.AwaitImage fs poseTasks index :: pend))
    (World.mk (App.historyEffect clock
                 (App.handleGenerate_finally (World.imageCallback index answer st)))
       pend).
Proof.
  intros H.
  pose proof (step_afterImage clock answer fs poseTasks index pend
                (World.mk st (World.AwaitImage fs poseTasks index :: pend)) eq_refl) as S.
  unfold World.afterImage, World.imageSettled in S. cbn [World.app] in S.
  rewrite H in S. exact S.
Qed.

Lemma step_image_more (clock : Clock) (answer : Answer Response.t) (fs : FormState.t)
    (poseTasks : list string) (index : nat) (pend : list World.Pending)
    (st : App.State) :
  Nat.ltb (S index) (length poseTasks) = true ->
  World.step
    (World.mk st (World.AwaitImage fs poseTasks index :: pend))
    (World.mk (App.historyEffect clock (World.imageCallback index answer st))
       (World.AwaitImage fs poseTasks (S index) :: pend)).
Proof.
  intros H.
  pose proof (step_afterImage clock answer fs poseTasks index pend
                (World.mk st (World.AwaitImage fs poseTasks index :: pend)) eq_refl) as S.
  unfold World.afterImage, World.imageSettled in S. cbn [World.app] in S.
  rewrite H in S. exact S.
Qed.

Lemma generatePhotos_from_steps (clock : Clock) (fs : FormState.t)
    (answers : nat -> Answer Response.t) (poseTasks : list string)
    (pend : list World.Pending) (rest : list string) :
  forall (index : nat) (pose : string) (st : App.State),
    (index + length (pose :: rest) = length poseTasks)%nat ->
    App.isLoading st = true -> App.prevIsLoading st = true ->
    World.steps
      (World.mk st (World.AwaitImage fs poseTasks index :: pend))
      (World.mk
         (App.historyEffect clock
            (App.handleGenerate_finally
               (fst (generatePhotos_from fs (App.onSuccessRendered clock)
                       (App.onErrorRendered clock) answers (length poseTasks)
                       index (pose :: rest) st))))
         pend).
Proof.
  induction rest as [|pose' rest IH]; intros index pose st Hlen Hl Hp;
    destruct (round_running clock answers index st Hl Hp) as (Hl' & Hp' & Hst');
    rewrite generatePhotos_from_cons.
  - cbn [generatePhotos_from fst]. rewrite Hst'.
    eapply World.steps_step; [apply World.steps_refl|].
    apply step_image_last. cbn [length] in Hlen. apply Nat.ltb_ge. lia.
  - set (st' := match generateImage (answers index) with
                | Ok imageUrl => App.onSuccessRendered clock index imageUrl st
                | Throw message =>
                    App.onErrorRendered clock index
                      (Js.or_else message "An unknown error occurred.") st
                end) in *.
    eapply steps_trans;
      [|apply (IH (S index) pose' st');
        [cbn [length] in Hlen |- *; lia | assumption..]].
    eapply World.steps_step; [apply World.steps_refl|].
    assert (Hrender : st' = App.historyEffect clock st').
    { now rewrite historyEffect_running. }
    rewrite Hrender, Hst'.
    apply step_image_more. cbn [length] in Hlen. apply Nat.ltb_lt. lia.
Qed.

Lemma step_poses_settled (clock : Clock) (now : nat -> Z) (planning : Answer ParsedJson)
    (fs : FormState.t) (pend : list World.Pending) (st : App.State) :
  World.step
    (World.mk st (World.AwaitPoses fs :: pend))
    (World.mk (App.historyEffect clock (fst (World.posesSettled now fs planning st)))
       (snd (World.posesSettled now fs planning st) ++ pend)).
Proof.
  exact (step_afterPoses clock now planning fs pend
           (World.mk st (World.AwaitPoses fs :: pend)) eq_refl).
Qed.

(** One whole run of [handleGenerate] is what the running application
    does when nothing else happens in between: the handler starts, the
    poses settle, and the images settle one after the other. *)
Lemma handleGenerate_steps (clock : Clock) (now : nat -> Z)
    (planning : Answer ParsedJson) (answers : nat -> Answer Response.t) (w : World.t) :
  World.steps w
    (World.mk (fst (App.handleGenerate clock now planning answers (World.app w)))
       (World.pending w)).
Proof.
  eapply steps_trans;
    [eapply World.steps_step; [apply World.steps_refl | apply (World.GenerateBegin clock)]|].
  unfold App.handleGenerate.
  set (fs := App.formState (World.app w)).
  set (st1 := App.historyEffect clock (App.handleGenerate_begin (World.app w))).
  assert (H1 : App.isLoading st1 = true /\ App.prevIsLoading st1 = true).
  { unfold st1. rewrite handleGenerate_begin_render. split; reflexivity. }
  destruct H1 as [Hl1 Hp1].
  pose proof (step_poses_settled clock now planning fs (World.pending w) st1) as Hposes.
  unfold World.posesSettled in Hposes.
  destruct (generatePoses planning) as [[|pose poses]|m] eqn:Ep; cbn [fst snd] in Hposes.
  - cbn [fst]. eapply World.steps_step; [apply World.steps_refl | exact Hposes].
  - eapply steps_trans;
      [eapply World.steps_step; [apply World.steps_refl | exact Hposes]|].
    set (st2 := App.historyEffect clock
                  (App.setImages (fun _ => App.initialImages now fs (pose :: poses)) st1)).
    assert (Hst2 : st2 = App.setImages
                           (fun _ => App.initialImages now fs (pose :: poses)) st1).
    { unfold st2. now rewrite historyEffect_running. }
    unfold generatePhotos.
    pose proof (generatePhotos_from_steps clock fs answers (pose :: poses)
                  (World.pending w) poses 0 pose st2 eq_refl) as Hloop.
    destruct (generatePhotos_from fs (App.onSuccessRendered clock)
                (App.onErrorRendered clock) answers (length (pose :: poses)) 0
                (pose :: poses) st2) as [st3 ev].
    cbn [fst] in Hloop |- *. apply Hloop; rewrite Hst2; assumption.
  - cbn [fst]. eapply World.steps_step; [apply World.steps_refl | exact Hposes].
Qed.

(** ** [generateVideoFromImage] *)




Lemma pollUntilDone_now (operation : Operation.t) (polls : list (Result Operation.t)) :
  Operation.done operation = true ->
  pollUntilDone operation polls = (Some (Ok operation), []).
Proof. intros H. destruct polls; cbn; now rewrite H. Qed.

(** The loop ends as soon as a poll finds the operation done: with the
    answers up to that poll, the call has an outcome. *)
Lemma pollUntilDone_done (pending : list Operation.t) (final : Operation.t)
    (rest : list (Result Operation.t)) (operation : Operation.t) :
  Forall (fun op => Operation.done op = false) (operation :: pending) ->
  Operation.done final = true ->
  fst (pollUntilDone operation (List.map Ok pending ++ Ok final :: rest))
  = Some (Ok final).
Proof.
  revert operation. induction pending as [|op pending IH]; intros operation Hp Hf.
  - apply Forall_cons in Hp as [H0 _]. cbn. rewrite H0.
    now rewrite (pollUntilDone_now final rest Hf).
  - apply Forall_cons in Hp as [H0 Hp]. cbn. rewrite H0.
    specialize (IH op Hp Hf).
    destruct (pollUntilDone op _) as [outcome events]. exact IH.
Qed.

(** Scenario D of the specification. *)
Example scenario_D :
  generateVideoFromImage (Some "key") Scenario.matchPhotoA
    "data:image/png;base64,AAAA" "9:16"
    (Ok Scenario.pendingOperation)
    [Ok Scenario.pendingOperation; Ok Scenario.pendingOperation; Ok Scenario.doneOperation]
    (FetchOk Scenario.video)
  = (Some (Ok Scenario.video),
     [SubmitVideoJob "AAAA" "image/png" "9:16";
      Sleep 10000; PollVideoJob; Sleep 10000; PollVideoJob; Sleep 10000; PollVideoJob;
      FetchVideo "https://videos.example/v1?alt=media&key=key"]).
Proof. vm_compute. reflexivity. Qed.

(** ** The API key and the client *)

Lemma getApiKey_present (envKey : option string) (storage : Client.Storage) :
  forall k, Client.getApiKey envKey storage = Some k -> Js.truthy k = true.
Proof.
  intros k. unfold Client.getApiKey, Client.or_null.
  destruct (negb _ && present (Client.item storage)) eqn:E.
  - apply andb_true_iff in E as [_ E]. intros H. rewrite H in E. exact E.
  - destruct (present envKey) eqn:E'; [|discriminate]. intros H. rewrite H in E'. exact E'.
Qed.

Lemma clientCoherent_step (m m' : Client.t) :
  Client.step m m' -> clientCoherent m -> clientCoherent m'.
Proof.
  intros Hstep H. destruct Hstep as [key storage m|envKey storage m].
  - unfold Client.setApiKey. destruct (Client.setItemThrows storage); [exact H|].
    intros client [=].
  - unfold Client.getAiClient.
    assert (Hnew : present (Client.getApiKey envKey storage) = true ->
                   clientCoherent (Client.mk (Client.getApiKey envKey storage)
                                     (Client.getApiKey envKey storage))).
    { intros Hp client Hc. cbn in Hc |- *. split; [exact Hc|].
      now apply (getApiKey_present envKey storage). }
    destruct (Client.ai m) as [client|];
      [destruct (Client.key_eqb _ _); [exact H|]|];
      destruct (present (Client.getApiKey envKey storage)) eqn:Hp; cbn [negb snd];
      auto.
Qed.

Lemma clientCoherent_reachable (m : Client.t) : Client.reachable m -> clientCoherent m.
Proof.
  induction 1 as [|m m' _ IH Hstep]; [intros client [=]|].
  now apply (clientCoherent_step m m').
Qed.

Lemma key_eqb_eq (a b : option string) : Client.key_eqb a b = true <-> a = b.
Proof.
  destruct a, b; cbn; try (split; congruence).
  rewrite String.eqb_eq. split; congruence.
Qed.

(** X1. However the module got where it is, the client [getAiClient]
    returns was built with the key [getApiKey] finds now, never with an
    older one, and it throws exactly when there is no key, which is when
    [hasApiKey] is false. *)
Theorem X1_client_is_built_with_the_current_key (envKey : option string)
    (storage : Client.Storage) (m : Client.t) :
  Client.reachable m ->
  fst (Client.getAiClient envKey storage m)
  = match Client.getApiKey envKey storage with
    | Some key => Ok key
    | None => Throw apiKeyNotFound
    end
  /\ (Client.hasApiKey envKey storage = true <->
      exists client, fst (Client.getAiClient envKey storage m) = Ok client)
  /\ (Client.hasApiKey envKey storage = false <->
      fst (Client.getAiClient envKey storage m) = Throw apiKeyNotFound).
Proof.
  intros Hr. pose proof (clientCoherent_reachable m Hr) as Hc.
  assert (H1 : fst (Client.getAiClient envKey storage m)
               = match Client.getApiKey envKey storage with
                 | Some key => Ok key
                 | None => Throw apiKeyNotFound
                 end).
  { unfold Client.getAiClient.
    pose proof (getApiKey_present envKey storage) as Hp.
    destruct (Client.ai m) as [client|] eqn:Ea.
    - destruct (Hc client Ea) as [Hcur _]. rewrite Hcur.
      destruct (Client.key_eqb _ _) eqn:Ek.
      + apply key_eqb_eq in Ek. now rewrite <- Ek.
      + destruct (Client.getApiKey envKey storage) as [k|]; [|reflexivity].
        cbn. now rewrite (Hp k eq_refl).
    - destruct (Client.getApiKey envKey storage) as [k|]; [|reflexivity].
      cbn. now rewrite (Hp k eq_refl). }
  split; [exact H1|]. rewrite H1. unfold Client.hasApiKey.
  pose proof (getApiKey_present envKey storage) as Hp.
  destruct (Client.getApiKey envKey storage) as [k|]; cbn.
  - rewrite (Hp k eq_refl). repeat split; eauto; discriminate.
  - repeat split; try discriminate; auto. intros [c [=]].
Qed.

(** X1 with a client cached for one key and another key in storage. *)
Lemma X1_witness :
  fst (Client.getAiClient None (ScenarioKey.storageWith "key-2") ScenarioKey.used)
  = match Client.getApiKey None (ScenarioKey.storageWith "key-2") with
    | Some key => Ok key
    | None => Throw apiKeyNotFound
    end
  /\ (Client.hasApiKey None (ScenarioKey.storageWith "key-2") = true <->
      exists client,
        fst (Client.getAiClient None (ScenarioKey.storageWith "key-2") ScenarioKey.used)
        = Ok client)
  /\ (Client.hasApiKey None (ScenarioKey.storageWith "key-2") = false <->
      fst (Client.getAiClient None (ScenarioKey.storageWith "key-2") ScenarioKey.used)
      = Throw apiKeyNotFound).
Proof.
  apply (X1_client_is_built_with_the_current_key None (ScenarioKey.storageWith "key-2")
           ScenarioKey.used).
  eapply Client.reachable_step; [apply Client.reachable_loaded|].
  apply (Client.GetAiClient None (ScenarioKey.storageWith "key-1")).
Defined.

(** X2. When local storage can be written and read, a key that is saved
    is the key found afterwards, and the next client is built with it
    whatever client was there before; an empty key is stored too, but the
    key found is then the one of the environment.  The component mounted
    after the reload opens the key dialog only when no key is found.  When
    local storage cannot be written, nothing changes, the cached client
    included. *)
Theorem X2_setApiKey_then_getApiKey (key : string) (envKey : option string)
    (storage : Client.Storage) (m : Client.t) (storedHistory : list HistoryEntry.t) :
  Client.getItemThrows storage = false ->
  let saved := Client.setApiKey key storage m in
  let found := if Js.truthy key then Some key else Client.or_null envKey in
  if Client.setItemThrows storage then saved = (storage, m)
  else
    Client.getApiKey envKey (fst saved) = found
    /\ fst (Client.getAiClient envKey (fst saved) (snd saved))
       = match found with
         | Some k => Ok k
         | None => Throw apiKeyNotFound
         end
    /\ App.isApiKeyModalOpen
         (App.initial (Client.hasApiKey envKey (fst saved)) storedHistory)
       = negb (Js.truthy key || present envKey).
Proof.
  intros Hg saved found. subst saved found. unfold Client.setApiKey.
  destruct (Client.setItemThrows storage); [reflexivity|]. cbn [fst snd].
  assert (Hk : Client.getApiKey envKey
                 (Client.mkStorage (Client.getItemThrows storage) false (Some key))
               = if Js.truthy key then Some key else Client.or_null envKey).
  { unfold Client.getApiKey. cbn. rewrite Hg. cbn. reflexivity. }
  split; [exact Hk|]. split.
  - unfold Client.getAiClient. cbn [Client.ai]. rewrite Hk.
    destruct (Js.truthy key) eqn:Et; cbn.
    + now rewrite Et.
    + unfold Client.or_null. destruct (present envKey) eqn:Ep; cbn; [|reflexivity].
      rewrite Ep. cbn. now destruct envKey.
  - unfold Client.hasApiKey. rewrite Hk. cbn [App.initial App.isApiKeyModalOpen].
    destruct (Js.truthy key) eqn:Et; cbn; [now rewrite Et|].
    unfold Client.or_null. destruct (present envKey) eqn:Ep; cbn; [|reflexivity].
    now rewrite Ep.
Qed.

(** X2 for a key saved over another one, with a client cached. *)
Lemma X2_witness :
  Client.getApiKey None
    (fst (Client.setApiKey "key-2" (ScenarioKey.storageWith "key-1") ScenarioKey.used))
  = Some "key-2"
  /\ fst (Client.getAiClient None
            (fst (Client.setApiKey "key-2" (ScenarioKey.storageWith "key-1")
                    ScenarioKey.used))
            (snd (Client.setApiKey "key-2" (ScenarioKey.storageWith "key-1")
                    ScenarioKey.used)))
     = Ok "key-2"
  /\ App.isApiKeyModalOpen
       (App.initial
          (Client.hasApiKey None
             (fst (Client.setApiKey "key-2" (ScenarioKey.storageWith "key-1")
                     ScenarioKey.used))) [])
     = false.
Proof.
  exact (X2_setApiKey_then_getApiKey "key-2" None (ScenarioKey.storageWith "key-1")
           ScenarioKey.used [] eq_refl).
Defined.

(** ** The pacing of a batch *)






(** ** What [generateImage] returns *)

(** X4. Whatever the remote model answers, [generateImage] returns a data
    URL or throws an error whose message is not empty: the message of the
    missing key, one of the module's own messages, or the message of the
    remote failure behind [Failed to generate image: ].  So the fallback
    message of [generatePhotos] is never the one reported. *)
Theorem X4_generateImage_outcomes (answer : Answer Response.t) :
  match generateImage answer with
  | Ok imageUrl => Js.startsWith "data:" imageUrl = true
  | Throw message =>
      Js.truthy message = true
      /\ Js.or_else message "An unknown error occurred." = message
      /\ (answer = MissingKey /\ message = apiKeyNotFound
          \/ isCustomError message = true
          \/ exists m, answer = Rejected m /\ isCustomError m = false
                       /\ message = "Failed to generate image: " +:+ m)
  end.
Proof.
  destruct (generateImage answer) as [imageUrl|message] eqn:E.
  - exact (generateImage_url _ _ E).
  - pose proof (generateImage_message _ _ E) as Ht.
    split; [exact Ht|]. split; [now apply or_else_truthy|].
    destruct answer as [|m|r]; cbn in E.
    + left. split; [reflexivity | now injection E].
    + unfold generateImage_catch in E. destruct (isCustomError m) eqn:Ec.
      * right. left. injection E as <-. exact Ec.
      * right. right. exists m. injection E as <-. auto.
    + right. left. destruct (generateImage_try r) as [u|m] eqn:Et; [discriminate|].
      pose proof (generateImage_try_custom _ _ Et) as Hc.
      unfold generateImage_catch in E. rewrite Hc in E. now injection E as <-.
Qed.

Lemma find_first {A : Type} (p : A -> bool) (l : list A) (x : A) :
  List.find p l = Some x
  <-> exists before after,
        l = before ++ x :: after /\ Forall (fun y => p y = false) before /\ p x = true.
Proof.
  split.
  - induction l as [|y l IH]; [discriminate|]. cbn. destruct (p y) eqn:Ey.
    + intros [= ->]. exists [], l. auto.
    + intros H. destruct (IH H) as (before & after & -> & Hb & Hx).
      exists (y :: before), after. auto.
  - intros (before & after & -> & Hb & Hx).
    induction Hb as [|y before Hy Hb IH]; cbn.
    + now rewrite Hx.
    + now rewrite Hy.
Qed.

Lemma generateImage_resolved_ok (response : Response.t) (imageUrl : string) :
  generateImage (Resolved response) = Ok imageUrl
  <-> generateImage_try response = Ok imageUrl.
Proof.
  cbn. destruct (generateImage_try response) as [u|m]; [reflexivity|].
  destruct (generateImage_catch_throws m) as (m' & -> & _). split; discriminate.
Qed.

(** X5. A response gives an image exactly when the prompt was not
    blocked, the first candidate did not stop for a reason other than STOP
    or MAX_TOKENS, and one of its parts carries inline data; the image is
    then built from the first such part, whatever text comes before it and
    whatever the other candidates hold. *)
Theorem X5_generateImage_returns_the_first_inline_image (response : Response.t)
    (imageUrl : string) :
  generateImage (Resolved response) = Ok imageUrl
  <-> promptBlocked response = false
      /\ exists candidate others before part blob after,
           Response.candidates response = Some (candidate :: others)
           /\ stoppedEarly candidate = false
           /\ Response.parts candidate = Some (before ++ part :: after)
           /\ Forall (fun p => hasInlineData p = false) before
           /\ Response.inlineData part = Some blob
           /\ present (Response.data blob) = true
           /\ imageUrl = dataUrlOf blob.
Proof.
  rewrite generateImage_resolved_ok. unfold generateImage_try, promptBlocked.
  split.
  - destruct (Response.promptFeedback response) as [pf|].
    + destruct (present (Response.blockReason pf)) eqn:Eb; [discriminate|].
      intros H. split; [reflexivity|]. revert H.
      destruct (Response.candidates response) as [[|candidate others]|]; try discriminate.
      fold (stoppedEarly candidate).
      destruct (stoppedEarly candidate) eqn:Es.
      { repeat match goal with
               | |- context [if ?c then _ else _] => destruct c
               end; discriminate. }
      destruct (List.find hasInlineData _) as [part|] eqn:Ef.
      * apply find_first in Ef as (before & after & Hparts & Hb & Hp).
        unfold hasInlineData in Hp.
        destruct (Response.inlineData part) as [blob|] eqn:Ei; [|discriminate].
        intros [= <-]. exists candidate, others, before, part, blob, after.
        destruct (Response.parts candidate) as [ps|]; cbn in Hparts.
        -- subst ps. auto 10.
        -- now destruct before.
      * destruct (List.find (fun p => present (Response.text p)) _); discriminate.
    + intros H. split; [reflexivity|]. revert H.
      destruct (Response.candidates response) as [[|candidate others]|]; try discriminate.
      fold (stoppedEarly candidate).
      destruct (stoppedEarly candidate) eqn:Es.
      { repeat match goal with
               | |- context [if ?c then _ else _] => destruct c
               end; discriminate. }
      destruct (List.find hasInlineData _) as [part|] eqn:Ef.
      * apply find_first in Ef as (before & after & Hparts & Hb & Hp).
        unfold hasInlineData in Hp.
        destruct (Response.inlineData part) as [blob|] eqn:Ei; [|discriminate].
        intros [= <-]. exists candidate, others, before, part, blob, after.
        destruct (Response.parts candidate) as [ps|]; cbn in Hparts.
        -- subst ps. auto 10.
        -- now destruct before.
      * destruct (List.find (fun p => present (Response.text p)) _); discriminate.
  - intros (Hblocked & candidate & others & before & part & blob & after
            & Hc & Hs & Hparts & Hb & Hi & Hd & ->).
    assert (Hn : match Response.promptFeedback response with
                 | Some pf => if present (Response.blockReason pf) then Some pf else None
                 | None => None
                 end = None).
    { destruct (Response.promptFeedback response) as [pf|]; [|reflexivity].
      now rewrite Hblocked. }
    rewrite Hn, Hc. fold (stoppedEarly candidate). rewrite Hs, Hparts.
    cbv beta iota zeta. cbn [default from_option]. unfold id.
    assert (Hf : List.find hasInlineData (before ++ part :: after) = Some part).
    { apply find_first. exists before, after. split; [reflexivity|]. split; [exact Hb|].
      unfold hasInlineData. now rewrite Hi. }
    rewrite Hf, Hi. reflexivity.
Qed.

(** ** Safety details *)



(** ** The key dialog *)

Lemma promptForKey_missing (st : App.State) :
  App.isApiKeyModalOpen (App.promptForKey apiKeyNotFound st) = true.
Proof. reflexivity. Qed.

(** X7. A handler that finds no API key opens the key dialog: planning a
    batch, regenerating a photo, describing the product and making a video
    all do.  The requests of the photos of a batch do not: once planning
    has given poses, the run neither opens the dialog nor sets the error
    banner, whatever the image requests come to, and an item whose request
    found no key only carries the message. *)
Theorem X7_missing_key_opens_the_key_dialog (clock : Clock) (now : nat -> Z)
    (answers : nat -> Answer Response.t) (st : App.State) (imageId : string)
    (call : App.VideoCall) (matchDataUrl : string -> option (string * string))
    (submitted : Result Operation.t) (polls : list (Result Operation.t))
    (fetched : Fetched) :
  App.isApiKeyModalOpen (fst (App.handleGenerate clock now MissingKey answers st)) = true
  /\ App.isApiKeyModalOpen
       (App.handleRegenerate_settled imageId (generateImage MissingKey) st) = true
  /\ App.isApiKeyModalOpen
       (App.handleGenerateDescription_settled (generateDescription MissingKey) st) = true
  /\ (exists outcome,
        fst (generateVideoFromImage None matchDataUrl (App.base64ImageDataUrl call)
               (App.videoAspectRatio call) submitted polls fetched) = Some outcome
        /\ App.isApiKeyModalOpen (App.handleVideoAction_settled imageId call outcome st)
           = true)
  /\ (forall pose poses,
        let run := fst (App.handleGenerate clock now (Resolved (Poses (pose :: poses)))
                          answers st) in
        App.isApiKeyModalOpen run = App.isApiKeyModalOpen st
        /\ App.error run = None
        /\ forall i img, App.images run !! i = Some img -> answers i = MissingKey ->
             ImageResult.status img = StError
             /\ ImageResult.error img = Some apiKeyNotFound).
Proof.
  split; [|split; [|split; [|split]]].
  - rewrite (handleGenerate_not_planned clock now MissingKey answers st apiKeyNotFound
               eq_refl).
    reflexivity.
  - reflexivity.
  - reflexivity.
  - exists (Throw apiKeyNotFound). split; reflexivity.
  - intros pose poses run.
    destruct (handleGenerate_planned clock now (Resolved (Poses (pose :: poses))) answers
                st pose poses eq_refl) as [Hst _].
    subst run. rewrite Hst. cbn [App.isApiKeyModalOpen App.error App.images].
    split; [reflexivity|]. split; [reflexivity|].
    intros i img Hi Ha. rewrite list_lookup_imap in Hi.
    destruct (App.initialImages now (App.formState st) (pose :: poses) !! i) as [img0|];
      [|discriminate].
    cbn in Hi. injection Hi as <-. unfold settle. rewrite Ha. cbn. auto.
Qed.

(** ** What is archived *)


Lemma promptForKey_idle (message : string) (st : App.State) :
  App.isLoading (App.promptForKey message st) = App.isLoading st
  /\ App.prevIsLoading (App.promptForKey message st) = App.prevIsLoading st
  /\ App.history (App.promptForKey message st) = App.history st.
Proof. unfold App.promptForKey. destruct (Js.includes _ _); auto. Qed.

Lemma handleRegenerate_settled_idle (imageId : string) (outcome : Result string)
    (st : App.State) :
  let st' := App.handleRegenerate_settled imageId outcome st in
  App.isLoading st' = App.isLoading st
  /\ App.prevIsLoading st' = App.prevIsLoading st
  /\ App.history st' = App.history st.
Proof.
  destruct outcome as [u|m]; cbn; auto. apply promptForKey_idle.
Qed.

Lemma handleVideoAction_settled_idle (imageId : string) (call : App.VideoCall)
    (outcome : Result string) (st : App.State) :
  let st' := App.handleVideoAction_settled imageId call outcome st in
  App.isLoading st' = App.isLoading st
  /\ App.prevIsLoading st' = App.prevIsLoading st
  /\ App.history st' = App.history st.
Proof.
  destruct outcome as [u|m]; cbn; auto. apply promptForKey_idle.
Qed.

Lemma handleRegenerate_begin_idle (imageId newStyle newPrompt : string) (st : App.State) :
  let st' := fst (App.handleRegenerate_begin imageId newStyle newPrompt st) in
  App.isLoading st' = App.isLoading st
  /\ App.prevIsLoading st' = App.prevIsLoading st
  /\ App.history st' = App.history st.
Proof.
  unfold App.handleRegenerate_begin.
  destruct (App.lastUsedFormState st); [|cbn; auto].
  destruct (App.findById _ _); [|cbn; auto].
  destruct (_ && _); cbn; auto.
Qed.

Lemma handleVideoAction_begin_idle (imageId aspectRatio : string) (st : App.State) :
  let st' := fst (App.handleVideoAction_begin imageId aspectRatio st) in
  App.isLoading st' = App.isLoading st
  /\ App.prevIsLoading st' = App.prevIsLoading st
  /\ App.history st' = App.history st.
Proof.
  unfold App.handleVideoAction_begin.
  destruct (App.findById _ _); [|cbn; auto].
  repeat match goal with
         | |- context [if ?c then _ else _] => destruct c
         end; cbn; auto.
Qed.



Lemma keepsArchive_refl (st : App.State) : keepsArchive st st.
Proof. split; reflexivity. Qed.

Lemma keepsArchive_trans (st1 st2 st3 : App.State) :
  keepsArchive st1 st2 -> keepsArchive st2 st3 -> keepsArchive st1 st3.
Proof. intros [a b] [c d]. split; congruence. Qed.

Lemma keepsArchive_promptForKey (message : string) (st : App.State) :
  keepsArchive st (App.promptForKey message st).
Proof. unfold App.promptForKey. destruct (Js.includes _ _); split; reflexivity. Qed.

Lemma keepsArchive_handleGenerate_catch (message : string) (st : App.State) :
  keepsArchive st (App.handleGenerate_finally (App.handleGenerate_catch message st)).
Proof.
  unfold App.handleGenerate_catch, App.handleGenerate_finally.
  destruct (keepsArchive_promptForKey message st) as [a b]. split; cbn; assumption.
Qed.

Lemma keepsArchive_posesSettled (now : nat -> Z) (formState : FormState.t)
    (planning : Answer ParsedJson) (st : App.State) :
  keepsArchive st (fst (World.posesSettled now formState planning st)).
Proof.
  unfold World.posesSettled. destruct (generatePoses planning) as [[|p ps]|m]; cbn [fst].
  - apply keepsArchive_handleGenerate_catch.
  - split; reflexivity.
  - apply keepsArchive_handleGenerate_catch.
Qed.

Lemma keepsArchive_imageSettled (formState : FormState.t) (poseTasks : list string)
    (index : nat) (answer : Answer Response.t) (st : App.State) :
  keepsArchive st (fst (World.imageSettled formState poseTasks index answer st)).
Proof.
  unfold World.imageSettled, World.imageCallback.
  destruct (Nat.ltb _ _), (generateImage answer); split; reflexivity.
Qed.

Lemma keepsArchive_handleRegenerate_begin (imageId newStyle newPrompt : string)
    (st : App.State) :
  keepsArchive st (fst (App.handleRegenerate_begin imageId newStyle newPrompt st)).
Proof.
  destruct (handleRegenerate_begin_idle imageId newStyle newPrompt st) as (_ & a & b).
  split; assumption.
Qed.

Lemma keepsArchive_handleRegenerate_settled (imageId : string) (outcome : Result string)
    (st : App.State) :
  keepsArchive st (App.handleRegenerate_settled imageId outcome st).
Proof.
  destruct (handleRegenerate_settled_idle imageId outcome st) as (_ & a & b).
  split; assumption.
Qed.

Lemma keepsArchive_handleVideoAction_begin (imageId aspectRatio : string) (st : App.State) :
  keepsArchive st (fst (App.handleVideoAction_begin imageId aspectRatio st)).
Proof.
  destruct (handleVideoAction_begin_idle imageId aspectRatio st) as (_ & a & b).
  split; assumption.
Qed.

Lemma keepsArchive_handleVideoAction_settled (imageId : string) (call : App.VideoCall)
    (outcome : Result string) (st : App.State) :
  keepsArchive st (App.handleVideoAction_settled imageId call outcome st).
Proof.
  destruct (handleVideoAction_settled_idle imageId call outcome st) as (_ & a & b).
  split; assumption.
Qed.

Lemma keepsArchive_handleGenerateDescription_begin (st : App.State) :
  keepsArchive st (fst (App.handleGenerateDescription_begin st)).
Proof.
  unfold App.handleGenerateDescription_begin.
  destruct (FormState.productImage _); split; reflexivity.
Qed.

Lemma keepsArchive_handleGenerateDescription_settled (outcome : Result string)
    (st : App.State) :
  keepsArchive st (App.handleGenerateDescription_settled outcome st).
Proof.
  unfold App.handleGenerateDescription_settled. destruct outcome as [d|m].
  - split; reflexivity.
  - destruct (keepsArchive_promptForKey m st) as [a b]. split; cbn; assumption.
Qed.

Lemma keepsArchive_handleStepImage (offset : nat -> nat -> nat) (st : App.State) :
  keepsArchive st (App.handleStepImage offset st).
Proof.
  unfold App.handleStepImage.
  destruct (App.viewingImageIndex st); [|apply keepsArchive_refl].
  destruct (Nat.ltb _ _); [|apply keepsArchive_refl].
  destruct (_ !! _); split; reflexivity.
Qed.

(** The render after a handler that kept the archive: the history is as
    it was, or a batch has just ended and is archived. *)
Lemma historyEffect_archive (clock : Clock) (st st' : App.State) :
  App.prevIsLoading st = App.isLoading st ->
  keepsArchive st st' ->
  App.prevIsLoading (App.historyEffect clock st')
  = App.isLoading (App.historyEffect clock st')
  /\ (App.history (App.historyEffect clock st') = App.history st
      \/ batchArchived st (App.historyEffect clock st')).
Proof.
  intros Hs [Hp Hh].
  destruct st' as [fs imgs l dl e lu v vi k p h]. cbn in Hp, Hh. subst p h.
  unfold App.historyEffect, batchArchived. cbn. rewrite Hs.
  destruct (App.isLoading st) eqn:El, l, lu as [lastUsed|]; cbn; auto.
  split; [reflexivity|]. right. split; [reflexivity|]. split; [reflexivity|].
  exists clock, lastUsed. split; reflexivity.
Qed.

(** The render after the history was rewritten outside a batch end. *)
Lemma historyEffect_setHistory (clock : Clock)
    (f : list HistoryEntry.t -> list HistoryEntry.t) (st : App.State) :
  App.prevIsLoading st = App.isLoading st ->
  App.prevIsLoading (App.historyEffect clock (App.setHistory f st))
  = App.isLoading (App.historyEffect clock (App.setHistory f st))
  /\ App.history (App.historyEffect clock (App.setHistory f st)) = f (App.history st).
Proof.
  destruct st as [fs imgs l dl e lu v vi k p h]. cbn. intros ->.
  unfold App.historyEffect. cbn. destruct l; cbn; auto.
Qed.

(** One step of the application, for the history. *)
Lemma step_history (w w' : World.t) :
  World.step w w' ->
  App.prevIsLoading (World.app w) = App.isLoading (World.app w) ->
  App.prevIsLoading (World.app w') = App.isLoading (World.app w')
  /\ (App.history (World.app w') = App.history (World.app w)
      \/ (exists id, App.history (World.app w')
                     = removeFromHistory id (App.history (World.app w)))
      \/ App.history (World.app w') = []
      \/ batchArchived (World.app w) (World.app w')).
Proof.
  intros Hstep Hs.
  assert (Hk : forall clock st', keepsArchive (World.app w) st' ->
               App.prevIsLoading (App.historyEffect clock st')
               = App.isLoading (App.historyEffect clock st')
               /\ (App.history (App.historyEffect clock st') = App.history (World.app w)
                   \/ (exists id, App.history (App.historyEffect clock st')
                                  = removeFromHistory id (App.history (World.app w)))
                   \/ App.history (App.historyEffect clock st') = []
                   \/ batchArchived (World.app w) (App.historyEffect clock st'))).
  { intros clock st' Hkeep.
    destruct (historyEffect_archive clock _ _ Hs Hkeep) as [a [b|b]]; auto. }
  destruct Hstep; cbn [World.app].
  - apply Hk. split; reflexivity.
  - apply Hk. split; reflexivity.
  - apply Hk.
    match goal with
    | H : World.posesSettled ?n ?f ?p ?s = (?st, _) |- _ =>
        change st with (fst (st, next)); rewrite <- H
    end.
    apply keepsArchive_posesSettled.
  - apply Hk.
    match goal with
    | H : World.imageSettled ?f ?p ?i ?a ?s = (?st, _) |- _ =>
        change st with (fst (st, next)); rewrite <- H
    end.
    apply keepsArchive_imageSettled.
  - apply Hk.
    match goal with
    | H : App.handleRegenerate_begin ?i ?s ?p ?x = (?st, _) |- _ =>
        change st with (fst (st, call)); rewrite <- H
    end.
    apply keepsArchive_handleRegenerate_begin.
  - apply Hk, keepsArchive_handleRegenerate_settled.
  - apply Hk.
    match goal with
    | H : App.handleVideoAction_begin ?i ?r ?x = (?st, _) |- _ =>
        change st with (fst (st, call)); rewrite <- H
    end.
    apply keepsArchive_handleVideoAction_begin.
  - apply Hk, keepsArchive_handleVideoAction_settled.
  - apply Hk. split; reflexivity.
  - apply Hk.
    match goal with
    | H : App.handleGenerateDescription_begin ?x = (?st, _) |- _ =>
        change st with (fst (st, call)); rewrite <- H
    end.
    apply keepsArchive_handleGenerateDescription_begin.
  - apply Hk, keepsArchive_handleGenerateDescription_settled.
  - apply Hk. split; reflexivity.
  - apply Hk. split; reflexivity.
  - apply Hk, keepsArchive_handleStepImage.
  - apply Hk, keepsArchive_handleStepImage.
  - apply Hk. split; reflexivity.
  - destruct (historyEffect_setHistory clock (removeFromHistory id) _ Hs) as [a b].
    split; [exact a|]. right. left. exists id. exact b.
  - destruct (historyEffect_setHistory clock clearHistory _ Hs) as [a b].
    split; [exact a|]. right. right. left. exact b.
  - split; [reflexivity|]. left. reflexivity.
Qed.



(** ** Regeneration: repeated requests, and photos taken from the history *)

Lemma findById_updateById (imageId : string) (f : ImageResult.t -> ImageResult.t)
    (images : list ImageResult.t) :
  (forall img, ImageResult.id (f img) = ImageResult.id img) ->
  App.findById imageId (App.updateById imageId f images)
  = f <$> App.findById imageId images.
Proof.
  intros Hid. unfold App.findById, App.updateById.
  induction images as [|img images IH]; [reflexivity|]. cbn.
  destruct (String.eqb (ImageResult.id img) imageId) eqn:E.
  - now rewrite Hid, E.
  - now rewrite E.
Qed.

Lemma handleRegenerate_begin_call (imageId newStyle newPrompt : string)
    (st begun : App.State) (call : list RequestPart) :
  App.handleRegenerate_begin imageId newStyle newPrompt st = (begun, Some call) ->
  exists lastUsed imageToUpdate,
    App.lastUsedFormState st = Some lastUsed
    /\ App.findById imageId (App.images st) = Some imageToUpdate
    /\ begun = App.setImages
                 (App.updateById imageId (ImageResult.restarted newStyle newPrompt)) st
    /\ call = imageParts (FormState.with_style newStyle lastUsed) newPrompt.
Proof.
  unfold App.handleRegenerate_begin.
  destruct (App.lastUsedFormState st) as [lastUsed|]; [|discriminate].
  destruct (App.findById imageId (App.images st)) as [img|]; [|discriminate].
  destruct (_ && _); [discriminate|]. intros [= <- <-].
  exists lastUsed, img. auto.
Qed.

(** X10. A regeneration request that went through is not made twice: the
    same request again, while the first is in flight or after it has
    settled, with an image or with an error, changes nothing and calls
    nothing, because the item already holds the style and the prompt asked
    for.  A failed regeneration is retried only with another style or
    another prompt. *)
Theorem X10_same_regeneration_request_is_dropped (imageId newStyle newPrompt : string)
    (st begun : App.State) (call : list RequestPart) (outcome : Result string) :
  App.handleRegenerate_begin imageId newStyle newPrompt st = (begun, Some call) ->
  App.handleRegenerate_begin imageId newStyle newPrompt begun = (begun, None)
  /\ let settled := App.handleRegenerate_settled imageId outcome begun in
     App.handleRegenerate_begin imageId newStyle newPrompt settled = (settled, None).
Proof.
  intros (lastUsed & img & Hl & Hf & -> & _)%handleRegenerate_begin_call.
  assert (Hdrop : forall st' img',
            App.lastUsedFormState st' = Some lastUsed ->
            App.findById imageId (App.images st') = Some img' ->
            ImageResult.style img' = newStyle -> ImageResult.prompt img' = newPrompt ->
            App.handleRegenerate_begin imageId newStyle newPrompt st' = (st', None)).
  { intros st' img' Hl' Hf' Hs Hp. unfold App.handleRegenerate_begin.
    rewrite Hl', Hf', Hs, Hp, !String.eqb_refl. reflexivity. }
  split.
  - apply (Hdrop _ (ImageResult.restarted newStyle newPrompt img)); try reflexivity.
    + exact Hl.
    + cbn [App.setImages App.images]. rewrite findById_updateById by reflexivity.
      now rewrite Hf.
  - cbn zeta.
    apply (Hdrop _ (match outcome with
                    | Ok imageUrl => ImageResult.succeeded imageUrl
                    | Throw message => ImageResult.failed message
                    end (ImageResult.restarted newStyle newPrompt img))).
    + destruct outcome as [u|m]; cbn; [exact Hl|].
      unfold App.promptForKey. now destruct (Js.includes _ _).
    + rewrite handleRegenerate_settled_images. cbn [App.setImages App.images].
      rewrite !findById_updateById, Hf; [reflexivity|reflexivity|].
      now destruct outcome.
    + now destruct outcome.
    + now destruct outcome.
Qed.

(** X10 for the first photo of scenario A, the regeneration being
    refused. *)
Lemma X10_witness :
  let begun :=
    fst (App.handleRegenerate_begin Scenario.id0 "cinematic" "a new pose"
           Scenario.afterA) in
  App.handleRegenerate_begin Scenario.id0 "cinematic" "a new pose" begun = (begun, None)
  /\ let settled :=
       App.handleRegenerate_settled Scenario.id0
         (generateImage (Resolved Scenario.safetyResponse)) begun in
     App.handleRegenerate_begin Scenario.id0 "cinematic" "a new pose" settled
     = (settled, None).
Proof.
  apply (X10_same_regeneration_request_is_dropped Scenario.id0 "cinematic" "a new pose"
           Scenario.afterA _
           (imageParts (FormState.with_style "cinematic" Scenario.form) "a new pose")).
  vm_compute. reflexivity.
Defined.

(** X11. A photo of an entry taken from the history is regenerated with
    the form of the last batch this page has generated, its images and its
    description, whatever form the entry was made with, although the form
    on screen is the entry's.  On a page that has generated nothing since it
    was loaded the request is refused with an error and nothing is
    called. *)
Theorem X11_history_photo_is_regenerated_with_the_last_form
    (entry : HistoryEntry.t) (imageId newStyle newPrompt : string) (st : App.State)
    (lastUsed : FormState.t) (imageToUpdate : ImageResult.t) (hasApiKey : bool) :
  App.lastUsedFormState st = Some lastUsed ->
  App.findById imageId (HistoryEntry.images entry) = Some imageToUpdate ->
  newStyle <> ImageResult.style imageToUpdate
  \/ newPrompt <> ImageResult.prompt imageToUpdate ->
  let viewed := App.handleViewHistoryItem entry st in
  let reloaded := App.handleViewHistoryItem entry (App.initial hasApiKey (App.history st)) in
  App.formState viewed = HistoryEntry.formState entry
  /\ snd (App.handleRegenerate_begin imageId newStyle newPrompt viewed)
     = Some (imageParts (FormState.with_style newStyle lastUsed) newPrompt)
  /\ App.handleRegenerate_begin imageId newStyle newPrompt reloaded
     = (App.setError (Some "Cannot regenerate. Original form data not found.") reloaded,
        None).
Proof.
  intros Hl Hf Hne viewed reloaded. split; [reflexivity|]. split; [|reflexivity].
  rewrite (handleRegenerate_begin_accepted imageId newStyle newPrompt viewed lastUsed
             imageToUpdate); auto.
Qed.

(** X11 for an entry made with another form, viewed after scenario A. *)
Lemma X11_witness :
  let viewed := App.handleViewHistoryItem ScenarioHistory.entry Scenario.afterA in
  let reloaded :=
    App.handleViewHistoryItem ScenarioHistory.entry
      (App.initial true (App.history Scenario.afterA)) in
  App.formState viewed = Scenario.formOfThree
  /\ snd (App.handleRegenerate_begin Scenario.id0 "cinematic" "pose-a" viewed)
     = Some (imageParts (FormState.with_style "cinematic" Scenario.form) "pose-a")
  /\ App.handleRegenerate_begin Scenario.id0 "cinematic" "pose-a" reloaded
     = (App.setError (Some "Cannot regenerate. Original form data not found.") reloaded,
        None).
Proof.
  apply (X11_history_photo_is_regenerated_with_the_last_form ScenarioHistory.entry
           Scenario.id0 "cinematic" "pose-a" Scenario.afterA Scenario.form
           Scenario.photoA true).
  - vm_compute. reflexivity.
  - vm_compute. reflexivity.
  - left. vm_compute. discriminate.
Defined.

(** ** The image viewer *)

Lemma findIndex_Some {A : Type} (p : A -> bool) (xs : list A) (i : nat) :
  App.findIndex p xs = Some i ->
  exists x, xs !! i = Some x /\ p x = true.
Proof.
  revert i. induction xs as [|x xs IH]; intros i; [discriminate|]. cbn.
  destruct (p x) eqn:E.
  - intros [= <-]. eauto.
  - destruct (App.findIndex p xs) as [j|]; [|discriminate]. cbn.
    intros [= <-]. apply (IH j eq_refl).
Qed.

Lemma findIndex_NoDup (images : list ImageResult.t) (i : nat) (img : ImageResult.t) :
  NoDup (List.map ImageResult.id images) ->
  images !! i = Some img ->
  App.findIndex (fun x => String.eqb (ImageResult.id x) (ImageResult.id img)) images
  = Some i.
Proof.
  revert i. induction images as [|x images IH]; intros i Hnd Hi; [discriminate|].
  cbn in Hnd. apply NoDup_cons in Hnd as [Hx Hnd]. destruct i as [|i]; cbn in Hi |- *.
  - injection Hi as ->. now rewrite String.eqb_refl.
  - destruct (String.eqb_spec (ImageResult.id x) (ImageResult.id img)) as [E|_].
    + exfalso. apply Hx. rewrite E. apply list_elem_of_fmap.
      exists img. split; [reflexivity|]. now apply list_elem_of_lookup_2 with i.
    + now rewrite (IH i Hnd Hi).
Qed.

Lemma successfulImages_In (st : App.State) (img : ImageResult.t) :
  In img (App.successfulImages st)
  <-> In img (App.images st) /\ ImageResult.status img = StSuccess.
Proof.
  unfold App.successfulImages. rewrite List.filter_In.
  split; intros [H1 H2]; (split; [exact H1|]); now destruct (ImageResult.status img).
Qed.

(** X12. The image viewer shows nothing but a photo of the gallery that
    has succeeded and whose id is the one selected; an id that is empty,
    unknown, or the id of an item that is loading or has failed shows
    nothing. *)
Theorem X12_viewer_shows_a_successful_photo_of_that_id (st : App.State)
    (img : ImageResult.t) :
  viewingImage st = Some img ->
  In img (App.images st)
  /\ ImageResult.status img = StSuccess
  /\ App.viewingImageId st = Some (ImageResult.id img)
  /\ Js.truthy (ImageResult.id img) = true.
Proof.
  unfold viewingImage, App.viewingImageIndex.
  destruct (App.viewingImageId st) as [imageId|]; [|discriminate].
  destruct (Js.truthy imageId) eqn:Et; [|discriminate].
  destruct (App.findIndex _ _) as [index|] eqn:Ef; [|discriminate].
  apply findIndex_Some in Ef as (x & Hx & Hid). intros H. rewrite Hx in H.
  injection H as ->. apply String.eqb_eq in Hid. subst imageId.
  apply list_elem_of_lookup_2, list_elem_of_In, successfulImages_In in Hx as [H1 H2].
  auto.
Qed.

(** X12 for the first photo of scenario A. *)
Lemma X12_witness :
  In Scenario.photoA (App.images (App.handleViewImage Scenario.id0 Scenario.afterA))
  /\ ImageResult.status Scenario.photoA = StSuccess
  /\ App.viewingImageId (App.handleViewImage Scenario.id0 Scenario.afterA)
     = Some (ImageResult.id Scenario.photoA)
  /\ Js.truthy (ImageResult.id Scenario.photoA) = true.
Proof.
  apply (X12_viewer_shows_a_successful_photo_of_that_id
           (App.handleViewImage Scenario.id0 Scenario.afterA) Scenario.photoA).
  vm_compute. reflexivity.
Defined.

Lemma step_back (i n : nat) :
  (i < n)%nat -> (1 < n)%nat ->
  (((i + 1) mod n + n - 1) mod n = i)%nat /\ (((i + n - 1) mod n + 1) mod n = i)%nat.
Proof.
  intros Hi Hn. split.
  - destruct (Nat.eq_dec (i + 1)%nat n) as [E|E].
    + rewrite E, Nat.Div0.mod_same. cbn [Nat.add]. rewrite Nat.mod_small by lia. lia.
    + rewrite (Nat.mod_small (i + 1)%nat) by lia.
      replace (i + 1 + n - 1)%nat with (i + 1 * n)%nat by lia.
      rewrite Nat.Div0.mod_add. apply Nat.mod_small. lia.
  - destruct i as [|i].
    + cbn [Nat.add]. rewrite (Nat.mod_small (n - 1)%nat) by lia.
      replace (n - 1 + 1)%nat with n by lia. apply Nat.Div0.mod_same.
    + replace (S i + n - 1)%nat with (i + 1 * n)%nat by lia.
      rewrite Nat.Div0.mod_add, (Nat.mod_small i) by lia.
      rewrite Nat.mod_small by lia. lia.
Qed.

Lemma handleStepImage_at (offset : nat -> nat -> nat) (st : App.State)
    (index : nat) (img : ImageResult.t) :
  App.viewingImageIndex st = Some index ->
  (1 < length (App.successfulImages st))%nat ->
  App.successfulImages st !! offset index (length (App.successfulImages st)) = Some img ->
  App.handleStepImage offset st = App.setViewingImageId (Some (ImageResult.id img)) st.
Proof.
  intros Hi Hn Himg. unfold App.handleStepImage. rewrite Hi, Himg.
  now apply Nat.ltb_lt in Hn as ->.
Qed.

Lemma viewingImageIndex_at (st : App.State) (index : nat) (img : ImageResult.t)
    (v : option string) :
  NoDup (List.map ImageResult.id (App.successfulImages st)) ->
  App.successfulImages st !! index = Some img ->
  Js.truthy (ImageResult.id img) = true ->
  App.viewingImageIndex (App.setViewingImageId (Some (ImageResult.id img)) st)
  = Some index.
Proof.
  intros Hnd Hi Ht. unfold App.viewingImageIndex.
  cbn [App.setViewingImageId App.viewingImageId]. rewrite Ht.
  change (App.successfulImages (App.setViewingImageId _ st))
    with (App.successfulImages st).
  now apply findIndex_NoDup.
Qed.

(** X13. In a gallery whose successful photos have distinct, non-empty
    ids, and more than one of them, going to the next photo and back, or
    back and to the next, leaves the viewer on the photo it was on, also
    across the ends of the gallery. *)
Theorem X13_next_and_previous_undo_each_other (st : App.State) (index : nat) :
  NoDup (List.map ImageResult.id (App.successfulImages st)) ->
  Forall (fun img => Js.truthy (ImageResult.id img) = true) (App.successfulImages st) ->
  (1 < length (App.successfulImages st))%nat ->
  App.viewingImageIndex st = Some index ->
  App.handlePrevImage (App.handleNextImage st) = st
  /\ App.handleNextImage (App.handlePrevImage st) = st
  /\ App.viewingImageIndex (App.handleNextImage st)
     = Some ((index + 1) mod length (App.successfulImages st))%nat.
Proof.
  intros Hnd Hids Hn Hi.
  set (n := length (App.successfulImages st)) in *.
  assert (Hview : exists img, App.successfulImages st !! index = Some img
                              /\ App.viewingImageId st = Some (ImageResult.id img)).
  { unfold App.viewingImageIndex in Hi.
    destruct (App.viewingImageId st) as [imageId|]; [|discriminate].
    destruct (Js.truthy imageId); [|discriminate].
    apply findIndex_Some in Hi as (x & Hx & Hid). apply String.eqb_eq in Hid.
    exists x. now subst imageId. }
  destruct Hview as (img & Himg & Hid).
  assert (Hlt : (index < n)%nat) by (now apply lookup_lt_Some in Himg).
  destruct (step_back index n Hlt Hn) as [Hnext Hprev].
  assert (Hback : App.setViewingImageId (Some (ImageResult.id img)) st = st).
  { destruct st; cbn in Hid |- *. now rewrite Hid. }
  assert (Hround : forall (f g : nat -> nat -> nat),
            (f index n < n)%nat -> g (f index n) n = index ->
            App.handleStepImage g (App.handleStepImage f st) = st
            /\ App.viewingImageIndex (App.handleStepImage f st) = Some (f index n)).
  { intros f g Hf Hg.
    destruct (lookup_lt_is_Some_2 (App.successfulImages st) (f index n) Hf) as [img' Himg'].
    assert (Ht : Js.truthy (ImageResult.id img') = true).
    { rewrite Forall_lookup in Hids. exact (Hids _ _ Himg'). }
    rewrite (handleStepImage_at f st index img' Hi Hn Himg').
    pose proof (viewingImageIndex_at st (f index n) img' None Hnd Himg' Ht) as Hi'.
    split; [|exact Hi'].
    rewrite (handleStepImage_at g _ (f index n) img Hi'); [| exact Hn |].
    - destruct st; cbn in Hid |- *. now rewrite Hid.
    - change (App.successfulImages (App.setViewingImageId _ st))
        with (App.successfulImages st).
      fold n. now rewrite Hg. }
  unfold App.handleNextImage, App.handlePrevImage.
  destruct (Hround (fun index n => Nat.modulo (index + 1) n)
              (fun index n => Nat.modulo (index + n - 1) n)) as [H1 H2].
  { apply Nat.mod_upper_bound. lia. }
  { exact Hnext. }
  destruct (Hround (fun index n => Nat.modulo (index + n - 1) n)
              (fun index n => Nat.modulo (index + 1) n)) as [H3 _].
  { apply Nat.mod_upper_bound. lia. }
  { exact Hprev. }
  auto.
Qed.

(** X13 for the two photos of scenario A, the viewer being on the first. *)
Lemma X13_witness :
  let st := App.handleViewImage Scenario.id0 Scenario.afterA in
  App.handlePrevImage (App.handleNextImage st) = st
  /\ App.handleNextImage (App.handlePrevImage st) = st
  /\ App.viewingImageIndex (App.handleNextImage st)
     = Some ((0 + 1) mod length (App.successfulImages st))%nat.
Proof.
  apply (X13_next_and_previous_undo_each_other
           (App.handleViewImage Scenario.id0 Scenario.afterA) 0).
  - apply (bool_decide_unpack _). vm_compute. exact I.
  - apply (bool_decide_unpack _). vm_compute. exact I.
  - vm_compute. lia.
  - vm_compute. reflexivity.
Defined.

(** ** The ids of the items of a batch *)

Lemma afterLastDash_digits (d : Decimal.uint) :
  afterLastDash (NilEmpty.string_of_uint d) = None.
Proof. induction d; cbn; try rewrite IHd; reflexivity. Qed.

Lemma afterLastDash_of_nat (n : nat) : afterLastDash (Js.of_nat n) = None.
Proof.
  unfold Js.of_nat, NilZero.string_of_uint.
  destruct (Nat.to_uint n); try apply afterLastDash_digits. reflexivity.
Qed.

Lemma afterLastDash_append (a d : string) :
  afterLastDash d = None -> afterLastDash (a +:+ "-" +:+ d) = Some d.
Proof.
  intros Hd. induction a as [|c a IH].
  - change (EmptyString +:+ "-" +:+ d) with (String "-" d). cbn. now rewrite Hd.
  - rewrite append_cons. cbn. now rewrite IH.
Qed.

Lemma to_uint_nonnil (n : nat) : Nat.to_uint n <> Decimal.Nil.
Proof.
  rewrite <- (DecimalNat.Unsigned.of_to n) at 1. rewrite DecimalNat.Unsigned.to_of.
  apply DecimalFacts.unorm_nonnil.
Qed.

Lemma of_nat_inj (i j : nat) : Js.of_nat i = Js.of_nat j -> i = j.
Proof.
  unfold Js.of_nat. intros H. apply DecimalNat.Unsigned.to_uint_inj.
  pose proof (NilZero.usu _ (to_uint_nonnil i)) as Hi.
  pose proof (NilZero.usu _ (to_uint_nonnil j)) as Hj.
  rewrite H in Hi. congruence.
Qed.

Lemma id_truthy (a b : string) : Js.truthy (a +:+ "-" +:+ b) = true.
Proof. destruct a; reflexivity. Qed.

Lemma initialImages_ids (now : nat -> Z) (fs : FormState.t) (poses : list string)
    (i : nat) (img : ImageResult.t) :
  App.initialImages now fs poses !! i = Some img ->
  ImageResult.id img = Js.of_Z (now i) +:+ "-" +:+ Js.of_nat i.
Proof.
  unfold App.initialImages. rewrite list_lookup_imap.
  destruct (poses !! i); [|discriminate]. now intros [= <-].
Qed.

Lemma settle_id (answers : nat -> Answer Response.t) (i : nat) (img : ImageResult.t) :
  ImageResult.id (settle answers i img) = ImageResult.id img.
Proof. unfold settle. now destruct (generateImage (answers i)). Qed.

(** X14. The items of a batch have ids that are not empty and differ
    from one another, whatever the clock reads while they are made, also
    when it reads the same time for all of them: the index after the last
    dash tells them apart.  They keep these ids to the end of the run. *)
Theorem X14_batch_item_ids_are_distinct (clock : Clock) (now : nat -> Z)
    (answers : nat -> Answer Response.t) (st : App.State)
    (pose : string) (poses : list string) :
  let initial := App.initialImages now (App.formState st) (pose :: poses) in
  let final :=
    App.images (fst (App.handleGenerate clock now (Resolved (Poses (pose :: poses)))
                       answers st)) in
  NoDup (List.map ImageResult.id initial)
  /\ Forall (fun img => Js.truthy (ImageResult.id img) = true) initial
  /\ List.map ImageResult.id final = List.map ImageResult.id initial.
Proof.
  intros initial final. split; [|split].
  - apply NoDup_alt. intros i j x Hi Hj.
    change (List.map ImageResult.id initial) with (ImageResult.id <$> initial) in Hi, Hj.
    rewrite list_lookup_fmap in Hi, Hj.
    destruct (initial !! i) as [a|] eqn:Ea; [|discriminate].
    destruct (initial !! j) as [b|] eqn:Eb; [|discriminate].
    cbn in Hi, Hj. injection Hi as Hi. injection Hj as Hj.
    apply initialImages_ids in Ea, Eb. rewrite Ea in Hi. rewrite Eb in Hj.
    assert (H : afterLastDash x = Some (Js.of_nat i)).
    { rewrite <- Hi. apply afterLastDash_append, afterLastDash_of_nat. }
    rewrite <- Hj, afterLastDash_append in H by apply afterLastDash_of_nat.
    injection H as H. symmetry. now apply of_nat_inj.
  - apply Forall_lookup. intros i img Hi. rewrite (initialImages_ids _ _ _ _ _ Hi).
    apply id_truthy.
  - unfold final.
    destruct (handleGenerate_planned clock now (Resolved (Poses (pose :: poses))) answers
                st pose poses eq_refl) as [-> _].
    cbn [App.images]. fold initial. apply list_eq. intros i.
    change (List.map ImageResult.id ?l) with (ImageResult.id <$> l).
    rewrite !list_lookup_fmap, list_lookup_imap.
    destruct (initial !! i) as [img|]; [|reflexivity]. cbn. now rewrite settle_id.
Qed.

(** ** The order of the history *)

Lemma insertByRecency_Forall (P : HistoryEntry.t -> Prop) (e : HistoryEntry.t)
    (l : list HistoryEntry.t) :
  P e -> Forall P l -> Forall P (insertByRecency e l).
Proof.
  intros He Hl. induction Hl as [|x l Hx Hl IH]; cbn; [auto|].
  destruct (_ <? _); auto.
Qed.

Lemma insertByRecency_newestFirst (e : HistoryEntry.t) (l : list HistoryEntry.t) :
  newestFirst l -> newestFirst (insertByRecency e l).
Proof.
  unfold newestFirst. induction 1 as [|x l Hl IH Hx]; cbn.
  - repeat constructor.
  - destruct (Z.ltb_spec (HistoryEntry.id e) (HistoryEntry.id x)) as [Hlt|Hge].
    + constructor; [exact IH|]. apply insertByRecency_Forall; [|exact Hx].
      unfold notOlder. lia.
    + constructor; [now constructor|]. constructor; [exact Hge|].
      eapply Forall_impl; [exact Hx|]. unfold notOlder. intros y Hy. lia.
Qed.

Lemma saveHistory_newestFirst (l : list HistoryEntry.t) : newestFirst (saveHistory l).
Proof.
  unfold saveHistory. induction l as [|x l IH]; cbn; [constructor|].
  now apply insertByRecency_newestFirst.
Qed.

Lemma insertByRecency_front (e : HistoryEntry.t) (l : list HistoryEntry.t) :
  Forall (notOlder e) l -> insertByRecency e l = e :: l.
Proof.
  intros [|x l' Hx _]; cbn; [reflexivity|].
  unfold notOlder in Hx. now apply Z.ltb_ge in Hx as ->.
Qed.

Lemma saveHistory_sorted (l : list HistoryEntry.t) : newestFirst l -> saveHistory l = l.
Proof.
  unfold saveHistory. induction 1 as [|x l Hl IH Hx]; cbn; [reflexivity|].
  rewrite IH. now apply insertByRecency_front.
Qed.

Lemma entriesOf_insertByRecency (id : Z) (e : HistoryEntry.t) (l : list HistoryEntry.t) :
  entriesOf id (insertByRecency e l) = entriesOf id (e :: l).
Proof.
  unfold entriesOf. induction l as [|x l IH]; [reflexivity|]. cbn.
  destruct (Z.ltb_spec (HistoryEntry.id e) (HistoryEntry.id x)) as [Hlt|Hge];
    [|reflexivity].
  cbn. rewrite IH. cbn.
  destruct (Z.eqb_spec (HistoryEntry.id e) id) as [He|He];
    destruct (Z.eqb_spec (HistoryEntry.id x) id) as [Hx|Hx]; try reflexivity; lia.
Qed.

(** X15. What [saveHistory] stores is the history it is given, newest
    first: the same entries, each as often as before, ordered by id from
    the greatest down, entries of one id in the order they came in.  A
    history that is newest first already is stored as it is. *)
Theorem X15_saveHistory_orders_newest_first (newHistory : list HistoryEntry.t) :
  newestFirst (saveHistory newHistory)
  /\ saveHistory newHistory ≡ₚ newHistory
  /\ (forall id, entriesOf id (saveHistory newHistory) = entriesOf id newHistory)
  /\ saveHistory (saveHistory newHistory) = saveHistory newHistory
  /\ (newestFirst newHistory -> saveHistory newHistory = newHistory).
Proof.
  split; [apply saveHistory_newestFirst|]. split; [apply saveHistory_Permutation|].
  split; [|split; [apply saveHistory_sorted, saveHistory_newestFirst
                  | apply saveHistory_sorted]].
  intros id. unfold saveHistory. induction newHistory as [|x l IH]; [reflexivity|].
  cbn [foldr]. rewrite entriesOf_insertByRecency. unfold entriesOf in *. cbn.
  now rewrite IH.
Qed.

Lemma removeFromHistory_sorted (id : Z) (l : list HistoryEntry.t) :
  newestFirst l ->
  removeFromHistory id l
  = List.filter (fun entry => negb (HistoryEntry.id entry =? id)) l.
Proof.
  intros Hl. unfold removeFromHistory. apply saveHistory_sorted.
  unfold newestFirst in *. induction Hl as [|x l Hl IH Hx]; cbn; [constructor|].
  destruct (negb _); [|exact IH]. constructor; [exact IH|].
  apply List.Forall_forall. intros y [Hy _]%List.filter_In.
  rewrite List.Forall_forall in Hx. auto.
Qed.

(** X16. In a history that is newest first and whose entries are all
    older than the clock reads, the entry of a batch that ends is put in
    front and the rest is left as it was; deleting that entry gives back
    the history as it was before the batch. *)
Theorem X16_new_entry_is_put_in_front (clock : Clock) (formState : FormState.t)
    (images : list ImageResult.t) (prevHistory : list HistoryEntry.t) :
  newestFirst prevHistory ->
  Forall (fun entry => HistoryEntry.id entry < nowMs clock) prevHistory ->
  addToHistory clock formState images prevHistory
  = HistoryEntry.mk (nowMs clock) (nowISO clock) formState images :: prevHistory
  /\ removeFromHistory (nowMs clock) (addToHistory clock formState images prevHistory)
     = prevHistory.
Proof.
  intros Hs Hold.
  assert (Ha : addToHistory clock formState images prevHistory
               = HistoryEntry.mk (nowMs clock) (nowISO clock) formState images
                   :: prevHistory).
  { unfold addToHistory, saveHistory. cbn [foldr].
    fold (saveHistory prevHistory). rewrite (saveHistory_sorted _ Hs).
    apply insertByRecency_front. eapply Forall_impl; [exact Hold|].
    unfold notOlder. cbn. intros y Hy. lia. }
  split; [exact Ha|]. rewrite Ha. unfold removeFromHistory. cbn [List.filter HistoryEntry.id].
  rewrite Z.eqb_refl. cbn [negb].
  assert (Hf : List.filter (fun entry => negb (HistoryEntry.id entry =? nowMs clock))
                 prevHistory = prevHistory).
  { clear Ha Hs. induction Hold as [|x l Hx Hl IH]; [reflexivity|]. cbn.
    destruct (Z.eqb_spec (HistoryEntry.id x) (nowMs clock)) as [E|_]; [lia|].
    cbn. now rewrite IH. }
  rewrite Hf. now apply saveHistory_sorted.
Qed.

(** X16 for the entry of scenario A put in front of an older one. *)
Lemma X16_witness :
  addToHistory Scenario.clock Scenario.form [Scenario.photoA] [ScenarioHistory.entry]
  = HistoryEntry.mk (nowMs Scenario.clock) (nowISO Scenario.clock) Scenario.form
      [Scenario.photoA] :: [ScenarioHistory.entry]
  /\ removeFromHistory (nowMs Scenario.clock)
       (addToHistory Scenario.clock Scenario.form [Scenario.photoA]
          [ScenarioHistory.entry])
     = [ScenarioHistory.entry].
Proof.
  apply (X16_new_entry_is_put_in_front Scenario.clock Scenario.form [Scenario.photoA]
           [ScenarioHistory.entry]).
  - repeat constructor.
  - repeat constructor.
Defined.

Lemma step_newestFirst (w w' : World.t) :
  World.step w w' ->
  App.prevIsLoading (World.app w) = App.isLoading (World.app w) ->
  newestFirst (App.history (World.app w)) ->
  App.prevIsLoading (World.app w') = App.isLoading (World.app w')
  /\ newestFirst (App.history (World.app w')).
Proof.
  intros Hstep Hs Hn.
  destruct (step_history w w' Hstep Hs)
    as [Hs' [H|[[id H]|[H|(_ & _ & clock & fs & _ & H)]]]];
    (split; [exact Hs'|]); rewrite H.
  - exact Hn.
  - apply saveHistory_newestFirst.
  - constructor.
  - apply saveHistory_newestFirst.
Qed.

(** X17. The history on screen stays newest first: from a component
    whose history is newest first, whatever the user does and however the
    calls in flight settle, every history reached is ordered by id from the
    greatest down. *)
Theorem X17_history_stays_newest_first (w w' : World.t) :
  World.steps w w' ->
  App.prevIsLoading (World.app w) = App.isLoading (World.app w) ->
  newestFirst (App.history (World.app w)) ->
  newestFirst (App.history (World.app w')).
Proof.
  intros Hsteps Hs Hn.
  enough (App.prevIsLoading (World.app w') = App.isLoading (World.app w')
          /\ newestFirst (App.history (World.app w'))) as [_ H] by exact H.
  induction Hsteps as [w|w1 w2 w3 _ IH Hstep]; [auto|].
  destruct (IH Hs Hn) as [Hs2 Hn2]. now apply (step_newestFirst w2 w3).
Qed.

(** X17 for the run that generates one photo and regenerates it. *)
Lemma X17_witness : newestFirst (App.history (World.app Scenario.w4)).
Proof.
  apply (X17_history_stays_newest_first Scenario.w0 Scenario.w4).
  - exact scenario_steps_04.
  - reflexivity.
  - constructor.
Defined.

(** ** The video call *)

(** The waits and polls of [n] rounds of the polling loop. *)
Lemma pollUntilDone_rounds (pending : list Operation.t) (final : Result Operation.t)
    (rest : list (Result Operation.t)) (operation : Operation.t) :
  Forall (fun op => Operation.done op = false) (operation :: pending) ->
  match final with
  | Ok op => Operation.done op = true
  | Throw _ => True
  end ->
  pollUntilDone operation (List.map Ok pending ++ final :: rest)
  = (Some final, pollRounds (S (length pending))).
Proof.
  revert operation. induction pending as [|op pending IH]; intros operation Hp Hf.
  - apply Forall_cons in Hp as [H0 _]. cbn. rewrite H0.
    destruct final as [op|m]; [|reflexivity].
    now rewrite (pollUntilDone_now op rest Hf).
  - apply Forall_cons in Hp as [H0 Hp]. cbn [List.map app pollUntilDone]. rewrite H0.
    now rewrite (IH op Hp Hf).
Qed.

(** X18. With a key and a photo that is an image data URL, the call
    submits the job, then waits ten seconds and polls, again and again,
    until a poll finds the operation done or fails; what the service would
    answer after that is never asked for.  A failed poll ends the call with
    its error, and so does an operation done without a link; an operation
    done with a link is fetched once, from the link with the key appended,
    and the call returns what was fetched. *)
Theorem X18_video_call_polls_until_done (key : string)
    (matchDataUrl : string -> option (string * string))
    (base64ImageDataUrl aspectRatio mimeType base64Data : string)
    (operation : Operation.t) (pending : list Operation.t)
    (final : Result Operation.t) (rest : list (Result Operation.t))
    (fetched : Fetched) :
  Js.truthy key = true ->
  matchDataUrl base64ImageDataUrl = Some (mimeType, base64Data) ->
  Forall (fun op => Operation.done op = false) (operation :: pending) ->
  match final with
  | Ok op => Operation.done op = true
  | Throw _ => True
  end ->
  generateVideoFromImage (Some key) matchDataUrl base64ImageDataUrl aspectRatio
    (Ok operation) (List.map Ok pending ++ final :: rest) fetched
  = let submit := SubmitVideoJob base64Data mimeType aspectRatio in
    let polling := pollRounds (S (length pending)) in
    match final with
    | Throw message => (Some (Throw message), submit :: polling)
    | Ok op =>
        match Operation.uri op with
        | Some link =>
            if Js.truthy link
            then (Some match fetched with
                       | FetchRejected message => Throw message
                       | FetchNotOk statusText =>
                           Throw ("Failed to download video file: " +:+ statusText)
                       | FetchOk dataUrl => Ok dataUrl
                       end,
                  submit :: polling ++ [FetchVideo (link +:+ "&key=" +:+ key)])
            else (Some (Throw "Video generation failed or did not return a valid URI."),
                  submit :: polling)
        | None =>
            (Some (Throw "Video generation failed or did not return a valid URI."),
             submit :: polling)
        end
    end.
Proof.
  intros Hk Hm Hp Hf. unfold generateVideoFromImage. cbn [present]. rewrite Hk, Hm.
  cbn [negb]. rewrite (pollUntilDone_rounds pending final rest operation Hp Hf).
  destruct final as [op|m]; [|reflexivity].
  destruct (Operation.uri op) as [link|]; [|reflexivity]. cbn [present Js.of_opt].
  destruct (Js.truthy link); reflexivity.
Qed.

(** X18 for scenario D: two polls find the operation pending, the third
    finds it done. *)
Lemma X18_witness :
  generateVideoFromImage (Some "key") Scenario.matchPhotoA
    "data:image/png;base64,AAAA" "9:16" (Ok Scenario.pendingOperation)
    (List.map Ok [Scenario.pendingOperation; Scenario.pendingOperation]
       ++ Ok Scenario.doneOperation :: [Ok Scenario.doneOperation])
    (FetchOk Scenario.video)
  = (Some (Ok Scenario.video),
     SubmitVideoJob "AAAA" "image/png" "9:16"
       :: pollRounds 3
            ++ [FetchVideo ("https://videos.example/v1?alt=media" +:+ "&key=" +:+ "key")]).
Proof.
  apply (X18_video_call_polls_until_done "key" Scenario.matchPhotoA
           "data:image/png;base64,AAAA" "9:16" "image/png" "AAAA"
           Scenario.pendingOperation
           [Scenario.pendingOperation; Scenario.pendingOperation]
           (Ok Scenario.doneOperation) [Ok Scenario.doneOperation]
           (FetchOk Scenario.video)).
  - reflexivity.
  - reflexivity.
  - repeat constructor.
  - reflexivity.
Defined.




(** ** The zip of the photos *)






